(** * AWS SQS trigger node (nodes/AwsSqsTrigger/AwsSqsTrigger.node.ts)

    A shallow embedding of [trigger]: option processing and interval
    normalisation, the per-cycle closure [executeTrigger] (receive, optional
    delete, emit, catch-and-log), and the self-rearming timer
    ([run], [rearm], [closeFunction]). *)

From Stdlib Require Import ZArith String Ascii List Lia.
From stdpp Require Import base option list strings gmap pretty.
Import ListNotations.

Set Warnings "-register-all".

(** ** The JavaScript values the node manipulates *)

Module JS.

(** A JS number.  The node only ever compares, multiplies and prints numbers;
    they are modelled as integers plus [NaN] (which [Number(...)] produces for
    non-numeric input).  Fractions and infinities are not modelled. *)
Inductive number := Fin (z : Z) | NaN.

Definition num_lt (a b : number) : bool :=
  match a, b with Fin x, Fin y => (x <? y)%Z | _, _ => false end.
Definition num_gt (a b : number) : bool := num_lt b a.
Definition num_le (a b : number) : bool :=
  match a, b with Fin x, Fin y => (x <=? y)%Z | _, _ => false end.
Definition num_mul (a b : number) : number :=
  match a, b with Fin x, Fin y => Fin (x * y) | _, _ => NaN end.
(** [Math.max(a, b)] *)
Definition Math_max (a b : number) : number :=
  match a, b with Fin x, Fin y => Fin (Z.max x y) | _, _ => NaN end.

(** Values stored in an [IDataObject]. [JObject] is a plain object whose
    content the node never inspects. *)
Inductive value :=
| JUndefined
| JNull
| JBool (b : bool)
| JNum (n : number)
| JStr (s : string)
| JObject
| JArray (elems : list value).

(** [if (v)], [v || d] *)
Definition truthy (v : value) : bool :=
  match v with
  | JUndefined | JNull => false
  | JBool b => b
  | JNum (Fin z) => negb (z =? 0)%Z
  | JNum NaN => false
  | JStr EmptyString => false
  | JStr _ => true
  | JObject | JArray _ => true
  end.

Definition js_or (a b : value) : value := if truthy a then a else b.

(** [typeof v === 'number'] *)
Definition is_number (v : value) : bool :=
  match v with JNum _ => true | _ => false end.

(** [Array.prototype.join] on strings *)
Definition join (sep : string) (l : list string) : string := String.concat sep l.

(** Number to string: decimal digits (the integers the node prints lie far
    below 1e21, where JS switches to exponent notation). *)
Definition number_to_string (n : number) : string :=
  match n with Fin z => pretty z | NaN => "NaN" end.

(** Template-literal conversion [`${v}`] *)
Fixpoint ToString (v : value) : string :=
  match v with
  | JUndefined => "undefined"
  | JNull => "null"
  | JBool true => "true"
  | JBool false => "false"
  | JNum n => number_to_string n
  | JStr s => s
  | JObject => "[object Object]"
  | JArray l =>
      join ","
        (map (fun e => match e with
                       | JUndefined | JNull => EmptyString
                       | _ => ToString e
                       end) l)
  end.

(** [encodeURIComponent] on a string held as its UTF-8 bytes: the unreserved
    marks and ASCII alphanumerics are kept, every other byte becomes %XX. *)
Definition unreserved (c : ascii) : bool :=
  let n := nat_of_ascii c in
  ((65 <=? n) && (n <=? 90)) || ((97 <=? n) && (n <=? 122))
  || ((48 <=? n) && (n <=? 57))
  || existsb (Ascii.eqb c) ["-"; "_"; "."; "!"; "~"; "*"; "'"; "("; ")"]%char.

Definition hexDigit (n : nat) : ascii :=
  match n with
  | 0 => "0" | 1 => "1" | 2 => "2" | 3 => "3" | 4 => "4" | 5 => "5"
  | 6 => "6" | 7 => "7" | 8 => "8" | 9 => "9" | 10 => "A" | 11 => "B"
  | 12 => "C" | 13 => "D" | 14 => "E" | _ => "F"
  end%char.

Definition percentEncode (c : ascii) : string :=
  let n := nat_of_ascii c in
  String "%" (String (hexDigit (n / 16)) (String (hexDigit (n mod 16)) EmptyString)).

Fixpoint encodeURIComponent (s : string) : string :=
  match s with
  | EmptyString => EmptyString
  | String c r =>
      (if unreserved c then String c EmptyString else percentEncode c)
        +:+ encodeURIComponent r
  end.

(** Property access [o.k] on an [IDataObject]: a missing key reads as
    [undefined]. *)
Definition get (o : gmap string value) (k : string) : value :=
  default JUndefined (o !! k).

(** Thrown values: an [Error] with its [name] and [message].  Values that
    are not [Error] objects, and values that have no conversion to text, are
    not modelled. *)
Record exn := mkExn { exn_name : string; exn_message : string }.

Definition TypeError (msg : string) : exn := mkExn "TypeError" msg.
Definition NodeOperationError (msg : string) : exn := mkExn "NodeOperationError" msg.
Definition NodeApiError (msg : string) : exn := mkExn "NodeApiError" msg.

(** [error?.message || error] inside a template literal: the message, or
    [Error.prototype.toString] (the name) when the message is empty. *)
Definition error_text (e : exn) : string :=
  match exn_message e with
  | EmptyString => exn_name e
  | m => m
  end.

(** The outcome of evaluating code that may throw. *)
Inductive completion (A : Type) :=
| Normal (a : A)
| Throw (e : exn).
Arguments Normal {A} a.
Arguments Throw {A} e.

#[global] Instance completion_ret : MRet completion := fun A a => Normal a.
#[global] Instance completion_bind : MBind completion := fun A B f m =>
  match m with Normal a => f a | Throw e => Throw e end.

End JS.
Export JS.

(** ** Platform functions used to run the model on concrete inputs

    [trigger] is stated over any [new URL(...).pathname] and any
    [Number(string)]; the two functions below stand in for them when the
    model is evaluated, and agree with the platform on the inputs used. *)

Module Sample.

(** The path component of an absolute URL of the shape
    [scheme://authority/path?query#fragment] (what [new URL(u).pathname]
    returns for the queue URLs SQS hands out); [None] stands for the
    [TypeError] thrown on input without a scheme. *)
Fixpoint skip_scheme (s : string) : option string :=
  match s with
  | String ":" (String "/" (String "/" r)) => Some r
  | String _ r => skip_scheme r
  | EmptyString => None
  end.

Fixpoint skip_authority (s : string) : string :=
  match s with
  | String "/" _ => s
  | String "?" _ | String "#" _ | EmptyString => "/"
  | String _ r => skip_authority r
  end.

Fixpoint until_query (s : string) : string :=
  match s with
  | String "?" _ | String "#" _ | EmptyString => EmptyString
  | String c r => String c (until_query r)
  end.

Definition pathname (u : string) : option string :=
  r ← skip_scheme u; Some (until_query (skip_authority r)).

(** Decimal digit strings read as numbers, anything else as [NaN]. *)
Fixpoint digits (s : string) (acc : Z) : number :=
  match s with
  | EmptyString => Fin acc
  | String c r =>
      let n := nat_of_ascii c in
      if (48 <=? n) && (n <=? 57)
      then digits r (10 * acc + Z.of_nat (n - 48))
      else NaN
  end.

Definition string_to_number (s : string) : number :=
  match s with EmptyString => Fin 0 | _ => digits s 0 end.

End Sample.

Section Node.

(** [new URL(u).pathname]; [None] when the constructor throws. *)
Variable URL_pathname : string -> option string.
(** [Number(s)] on a string. *)
Variable StringToNumber : string -> number.

(** [Number(v)] *)
Definition ToNumber (v : value) : number :=
  match v with
  | JUndefined => NaN
  | JNull => Fin 0
  | JBool true => Fin 1
  | JBool false => Fin 0
  | JNum n => n
  | JStr s => StringToNumber s
  | JObject => NaN
  | JArray _ => StringToNumber (ToString v)
  end.

(** ** [trigger]: option processing (lines 175-222) *)

Definition receiveMessageParams0 : list string :=
  ["Version=2012-11-05"; "Action=ReceiveMessage";
   "MessageAttributeName=All"; "AttributeName=All"].

(** [if (options.visibilityTimeout) { ... }] *)
Definition visibilityTimeoutBlock (options : gmap string value)
    (receiveMessageParams : list string) : completion (list string) :=
  let visibilityTimeout := get options "visibilityTimeout" in
  if truthy visibilityTimeout then
    match visibilityTimeout with
    | JNum n =>
        if num_lt n (Fin 0) || num_gt n (Fin 43200) then
          Throw (NodeOperationError
                   "Visibility Timeout must be between 0 and 43200 (12 hours).")
        else
          Normal (receiveMessageParams
                    ++ ["VisibilityTimeout=" +:+ ToString visibilityTimeout])
    | _ => Normal receiveMessageParams
    end
  else Normal receiveMessageParams.

(** [if (options.maxNumberOfMessages) { ... }] *)
Definition maxNumberOfMessagesBlock (options : gmap string value)
    (receiveMessageParams : list string) : completion (list string) :=
  let maxNumberOfMessages := get options "maxNumberOfMessages" in
  if truthy maxNumberOfMessages then
    match maxNumberOfMessages with
    | JNum n =>
        if num_lt n (Fin 1) || num_gt n (Fin 10) then
          Throw (NodeOperationError
                   "Max Number Of Messages must be between 1 and 10.")
        else
          Normal (receiveMessageParams
                    ++ ["MaxNumberOfMessages=" +:+ ToString maxNumberOfMessages])
    | _ => Normal receiveMessageParams
    end
  else Normal receiveMessageParams.

(** [if (options.waitTimeSeconds) { ... }] *)
Definition waitTimeSecondsBlock (options : gmap string value)
    (receiveMessageParams : list string) : completion (list string) :=
  let waitTimeSeconds := get options "waitTimeSeconds" in
  if truthy waitTimeSeconds then
    if is_number waitTimeSeconds
       && match waitTimeSeconds with
          | JNum n => num_lt n (Fin 0) || num_gt n (Fin 20)
          | _ => false
          end
    then Throw (NodeOperationError "Wait Time Seconds must be between 0 and 20.")
    else Normal (receiveMessageParams
                   ++ ["WaitTimeSeconds=" +:+ ToString waitTimeSeconds])
  else Normal receiveMessageParams.

Definition buildReceiveMessageParams (options : gmap string value)
    : completion (list string) :=
  p1 ← visibilityTimeoutBlock options receiveMessageParams0;
  p2 ← maxNumberOfMessagesBlock options p1;
  waitTimeSecondsBlock options p2.

(** ** [trigger]: interval normalisation (lines 231-239 and 296) *)

Definition applyUnit (interval : number) (unit : string) : number :=
  let intervalValue := interval in
  let intervalValue :=
    if String.eqb unit "minutes" then num_mul intervalValue (Fin 60)
    else intervalValue in
  let intervalValue :=
    if String.eqb unit "hours" then num_mul intervalValue (Fin (60 * 60))
    else intervalValue in
  intervalValue.

Definition normalizedDelayMs (interval : number) (unit : string)
    (options : gmap string value) : number :=
  let intervalValue := applyUnit interval unit in
  let intervalValue :=
    Math_max intervalValue
      (ToNumber (js_or (get options "waitTimeSeconds") (JNum (Fin 0)))) in
  num_mul intervalValue (Fin 1000).

(** What the closures [executeTrigger], [run] and [rearm] capture. *)
Record Closure := {
  queuePath : string;
  receiveMessageParams : list string;
  options : gmap string value;
  intervalValue : number
}.

(** ** The timer state

    [timers] are the pending [setTimeout] timers as (handle, delay);
    [executing] counts the [executeTrigger] invocations that have started and
    not yet settled; [cycles] counts all invocations ever started. *)
Record Sched := {
  running : bool;
  inFlight : bool;
  intervalObj : nat;
  timers : list (nat * number);
  nextHandle : nat;
  executing : nat;
  cycles : nat
}.

(** [h = setTimeout(run, delay)] *)
Definition setTimeout (delay : number) (s : Sched) : nat * Sched :=
  (nextHandle s,
   {| running := running s; inFlight := inFlight s;
      intervalObj := intervalObj s;
      timers := timers s ++ [(nextHandle s, delay)];
      nextHandle := S (nextHandle s);
      executing := executing s; cycles := cycles s |}).

(** [clearTimeout(h)]: a handle that is not pending is ignored. *)
Definition clearTimeout (h : nat) (s : Sched) : Sched :=
  {| running := running s; inFlight := inFlight s;
     intervalObj := intervalObj s;
     timers := filter (fun t => fst t ≠ h) (timers s);
     nextHandle := nextHandle s;
     executing := executing s; cycles := cycles s |}.

Definition set_intervalObj (h : nat) (s : Sched) : Sched :=
  {| running := running s; inFlight := inFlight s; intervalObj := h;
     timers := timers s; nextHandle := nextHandle s;
     executing := executing s; cycles := cycles s |}.

Definition set_inFlight (b : bool) (s : Sched) : Sched :=
  {| running := running s; inFlight := b; intervalObj := intervalObj s;
     timers := timers s; nextHandle := nextHandle s;
     executing := executing s; cycles := cycles s |}.

Definition set_running (b : bool) (s : Sched) : Sched :=
  {| running := b; inFlight := inFlight s; intervalObj := intervalObj s;
     timers := timers s; nextHandle := nextHandle s;
     executing := executing s; cycles := cycles s |}.

(** State right after lines 303-305:
    [running = true; intervalObj = setTimeout(run, 0); inFlight = false]. *)
Definition startSched : Sched :=
  let s0 := {| running := true; inFlight := false; intervalObj := 0;
               timers := []; nextHandle := 0; executing := 0; cycles := 0 |} in
  let '(h, s1) := setTimeout (Fin 0) s0 in
  set_inFlight false (set_intervalObj h s1).

(** ** [trigger] *)

Record NodeParameters := {
  param_queue : string;
  param_interval : number;
  param_unit : string;
  param_options : gmap string value
}.

Definition trigger (p : NodeParameters) : completion (Closure * Sched) :=
  queuePath ← match URL_pathname (param_queue p) with
              | Some path => Normal path
              | None => Throw (TypeError "Invalid URL")
              end;
  receiveMessageParams ← buildReceiveMessageParams (param_options p);
  if num_le (param_interval p) (Fin 0) then
    Throw (NodeOperationError
             "The interval has to be set to at least 1 or higher!")
  else
    let intervalValue := normalizedDelayMs (param_interval p) (param_unit p) (param_options p) in
    if num_gt intervalValue (Fin 2147483647) then
      Throw (NodeApiError "The interval value is too large.")
    else
      Normal ({| queuePath := queuePath;
                 receiveMessageParams := receiveMessageParams;
                 options := param_options p;
                 intervalValue := intervalValue |},
              startSched).

(** ** [executeTrigger]: one poll cycle *)

(** A received message; [ReceiptHandle] is the only field the node reads. *)
Record Message := {
  MessageId : string;
  ReceiptHandle : string;
  Body : string
}.

(** [responseData?.ReceiveMessageResponse?.ReceiveMessageResult?.Message]:
    falsy or missing, a single object, or an array. *)
Inductive MessageField :=
| NoMessage
| OneMessage (m : Message)
| MessageArray (l : list Message).

(** What the cycle calls out to: the transport [awsApiRequestSOAP] (its
    answer to a request path, or the error it rejects with) and the sink
    [this.emit] ([Some e] when it throws [e]). *)
Record Host := {
  awsApiRequestSOAP : string -> completion MessageField;
  emit : list Message -> option exn
}.

(** The calls a cycle makes, in order. [Emit items] is
    [this.emit([items])]. *)
Inductive Effect :=
| Request (path : string)
| Emit (returnMessages : list Message)
| LogError (text : string).

(** Code that appends to the trace of calls and may throw. *)
Definition M (A : Type) : Type := list Effect -> completion A * list Effect.

#[local] Instance M_ret : MRet M := fun A a tr => (Normal a, tr).
#[local] Instance M_bind : MBind M := fun A B f m tr =>
  match m tr with
  | (Normal a, tr') => f a tr'
  | (Throw e, tr') => (Throw e, tr')
  end.

Definition throw {A : Type} (e : exn) : M A := fun tr => (Throw e, tr).

Definition try_catch {A : Type} (body : M A) (handler : exn -> M A) : M A :=
  fun tr =>
    match body tr with
    | (Normal a, tr') => (Normal a, tr')
    | (Throw e, tr') => handler e tr'
    end.

Definition request (h : Host) (path : string) : M MessageField :=
  fun tr => (awsApiRequestSOAP h path, tr ++ [Request path]).

Definition this_emit (h : Host) (returnMessages : list Message) : M unit :=
  fun tr =>
    (match emit h returnMessages with
     | None => Normal tt
     | Some e => Throw e
     end, tr ++ [Emit returnMessages]).

Definition logger_error (text : string) : M unit :=
  fun tr => (Normal tt, tr ++ [LogError text]).

Definition undefined_ReceiptHandle : exn :=
  TypeError "Cannot read properties of undefined (reading 'ReceiptHandle')".

(** The [for] loop of lines 263-273, entered at index [i] with [n]
    iterations left ([n = messagesArray.length - i]). *)
Fixpoint forLoop (messagesArray : list Message) (n i : nat)
    (deleteMessagesParams : list string) : completion (list string) :=
  match n with
  | 0 => Normal deleteMessagesParams
  | S n' =>
      let deleteMessageBatchRequestId := i + 1 in
      let deleteMessageBatchRequestEntry :=
        "DeleteMessageBatchRequestEntry." +:+ pretty deleteMessageBatchRequestId in
      match messagesArray !! i with
      | None => Throw undefined_ReceiptHandle
      | Some m =>
          forLoop messagesArray n' (S i)
            (deleteMessagesParams
               ++ [deleteMessageBatchRequestEntry +:+ ".Id=msg"
                     +:+ pretty deleteMessageBatchRequestId;
                   deleteMessageBatchRequestEntry +:+ ".ReceiptHandle="
                     +:+ encodeURIComponent (ReceiptHandle m)])
      end
  end.

(** Lines 258-279: the parameters of the delete request. *)
Definition buildDeleteMessagesParams (messagesArray : list Message)
    : completion (list string) :=
  let deleteMessagesParams := ["Version=2012-11-05"] in
  if 1 <? length messagesArray then
    forLoop messagesArray (length messagesArray) 0
      (deleteMessagesParams ++ ["Action=DeleteMessageBatch"])
  else
    match messagesArray !! 0 with
    | None => Throw undefined_ReceiptHandle
    | Some m =>
        Normal (deleteMessagesParams
                  ++ ["Action=DeleteMessage";
                      "ReceiptHandle=" +:+ encodeURIComponent (ReceiptHandle m)])
    end.

Definition requestPath (queuePath : string) (params : list string) : string :=
  queuePath +:+ "?" +:+ join "&" params.

(** [Array.isArray(messages) ? messages : [messages]] *)
Definition messagesArrayOf (messages : MessageField) : list Message :=
  match messages with
  | MessageArray l => l
  | OneMessage m => [m]
  | NoMessage => []
  end.

(** The [try] block of [executeTrigger] (lines 243-289). *)
Definition tryBlock (c : Closure) (h : Host) : M unit :=
  messages ← request h (requestPath (queuePath c) (receiveMessageParams c));
  match messages with
  | NoMessage => mret tt
  | _ =>
      let messagesArray := messagesArrayOf messages in
      let returnMessages := messagesArray in
      _ ← (if truthy (get (options c) "deleteMessages") then
             match buildDeleteMessagesParams messagesArray with
             | Throw e => throw e
             | Normal deleteMessagesParams =>
                 _ ← request h (requestPath (queuePath c) deleteMessagesParams);
                 mret tt
             end
           else mret tt);
      this_emit h returnMessages
  end.

Definition executeTrigger (c : Closure) (h : Host) : M unit :=
  try_catch (tryBlock c h)
    (fun error =>
       logger_error ("[SQS] receive/delete failed: " +:+ error_text error)).

(** ** [run], [rearm], [closeFunction] *)

Definition rearm (c : Closure) (s : Sched) : Sched :=
  if running s then
    let '(h, s') := setTimeout (intervalValue c) s in set_intervalObj h s'
  else s.

(** A timer that fires is no longer pending. *)
Definition expire (h : nat) (s : Sched) : Sched :=
  {| running := running s; inFlight := inFlight s;
     intervalObj := intervalObj s;
     timers := filter (fun t => fst t ≠ h) (timers s);
     nextHandle := nextHandle s;
     executing := executing s; cycles := cycles s |}.

(** [executeTrigger()] is called and awaited. *)
Definition call_executeTrigger (s : Sched) : Sched :=
  {| running := running s; inFlight := inFlight s;
     intervalObj := intervalObj s; timers := timers s;
     nextHandle := nextHandle s;
     executing := S (executing s); cycles := S (cycles s) |}.

(** The awaited [executeTrigger()] has settled. *)
Definition settled (s : Sched) : Sched :=
  {| running := running s; inFlight := inFlight s;
     intervalObj := intervalObj s; timers := timers s;
     nextHandle := nextHandle s;
     executing := pred (executing s); cycles := cycles s |}.

(** [run()] up to its [await]. *)
Definition run (c : Closure) (s : Sched) : Sched :=
  if inFlight s then rearm c s
  else call_executeTrigger (set_inFlight true s).

(** [run()] resumed: [finally { inFlight = false; rearm(); }]. *)
Definition run_finally (c : Closure) (s : Sched) : Sched :=
  rearm c (set_inFlight false s).

Definition closeFunction (s : Sched) : Sched :=
  clearTimeout (intervalObj s) (set_running false s).

(** What can happen to a started node: a pending timer fires, an awaited
    cycle settles (its calls, made against [host], are appended to the trace
    at that point), or the host calls [closeFunction].  The trace therefore
    holds the calls of the cycles that have settled, not those of a cycle in
    flight; a cycle whose request never settles is a run without its
    [Settle] event. *)
Inductive Event :=
| Fire (h : nat)
| Settle (host : Host)
| Close.

Definition pending (h : nat) (s : Sched) : bool :=
  bool_decide (h ∈ (timers s).*1).

Definition step (c : Closure) (st : Sched * list Effect) (e : Event)
    : option (Sched * list Effect) :=
  let '(s, tr) := st in
  match e with
  | Fire h =>
      if pending h s then Some (run c (expire h s), tr) else None
  | Settle host =>
      if 0 <? executing s then
        Some (run_finally c (settled s), snd (executeTrigger c host tr))
      else None
  | Close => Some (closeFunction s, tr)
  end.

Fixpoint exec (c : Closure) (st : Sched * list Effect) (es : list Event)
    : option (Sched * list Effect) :=
  match es with
  | [] => Some st
  | e :: es' => st' ← step c st e; exec c st' es'
  end.

(** ** [getQueues] (lines 131-162) *)

(** [s.split(sep)] for a one-character separator: the pieces between the
    separators, in order; never an empty array. *)
Fixpoint split (sep : ascii) (s : string) : list string :=
  match s with
  | EmptyString => [EmptyString]
  | String c r =>
      if Ascii.eqb c sep then EmptyString :: split sep r
      else match split sep r with
           | piece :: pieces => String c piece :: pieces
           | [] => [String c EmptyString]
           end
  end.

(** [data.ListQueuesResponse.ListQueuesResult.QueueUrl]: missing, one URL,
    or an array of URLs. *)
Inductive QueueUrlField :=
| NoQueueUrl
| OneQueueUrl (queueUrl : string)
| QueueUrlArray (queueUrls : list string).

(** The answer to the ListQueues request as far as [getQueues] reads it.
    The property chain is not optional: a missing [ListQueuesResponse] or
    [ListQueuesResult] makes the read throw a [TypeError]. *)
Inductive ListQueuesData :=
| NoListQueuesResponse
| NoListQueuesResult
| ListQueuesResult (QueueUrl : QueueUrlField).

(** One entry of the queue picker, [{ name, value }]. *)
Record INodePropertyOptions := {
  option_name : string;
  option_value : string
}.

(** [!queues] *)
Definition no_queues (queues : QueueUrlField) : bool :=
  match queues with
  | NoQueueUrl => true
  | OneQueueUrl EmptyString => true
  | OneQueueUrl _ => false
  | QueueUrlArray _ => false
  end.

(** [urlParts[urlParts.length - 1]]; the array [split] returns is never
    empty, so the index is always in range. *)
Definition lastPart (urlParts : list string) : string :=
  default EmptyString (last urlParts).

(** The callback of [queues.map] (lines 153-161). *)
Definition queueOption (queueUrl : string) : INodePropertyOptions :=
  let urlParts := split "/" queueUrl in
  let name := lastPart urlParts in
  {| option_name := name; option_value := queueUrl |}.

Definition listQueuesPath : string :=
  "?" +:+ join "&" ["Version=2012-11-05"; "Action=ListQueues"].

(** [getQueues], given what [awsApiRequestSOAP] answers to a request path.
    [new NodeApiError(node, error)] keeps the message of the error it
    wraps. *)
Definition getQueues (awsApiRequestSOAP : string -> completion ListQueuesData)
    : completion (list INodePropertyOptions) :=
  match awsApiRequestSOAP listQueuesPath with
  | Throw error => Throw (NodeApiError (exn_message error))
  | Normal NoListQueuesResponse =>
      Throw (TypeError
               "Cannot read properties of undefined (reading 'ListQueuesResult')")
  | Normal NoListQueuesResult =>
      Throw (TypeError
               "Cannot read properties of undefined (reading 'QueueUrl')")
  | Normal (ListQueuesResult queues) =>
      if no_queues queues then Normal []
      else
        let queues :=
          match queues with
          | QueueUrlArray l => l
          | OneQueueUrl queueUrl => [queueUrl]
          | NoQueueUrl => []
          end in
        Normal (map queueOption queues)
  end.

(** ** Reading the specification's vocabulary *)

(** The unit factor of the specification: milliseconds per unit. *)
Definition unitFactorMs (unit : string) : Z :=
  if String.eqb unit "minutes" then 60000
  else if String.eqb unit "hours" then 3600000
  else 1000.

(** A non-zero number outside the closed range [lo, hi]. *)
Definition outside (lo hi : Z) (v : value) : Prop :=
  exists z : Z, v = JNum (Fin z) /\ z <> 0%Z /\ (z < lo \/ hi < z)%Z.

(** Some numeric option lies outside its documented range. *)
Definition out_of_range (options : gmap string value) : Prop :=
  outside 0 43200 (get options "visibilityTimeout")
  \/ outside 1 10 (get options "maxNumberOfMessages")
  \/ outside 0 20 (get options "waitTimeSeconds").

Definition rangeMessages : list string :=
  ["Visibility Timeout must be between 0 and 43200 (12 hours).";
   "Max Number Of Messages must be between 1 and 10.";
   "Wait Time Seconds must be between 0 and 20."].

Definition optionKeys : list string :=
  ["visibilityTimeout"; "maxNumberOfMessages"; "waitTimeSeconds"].

(** The [Request] paths of a trace, in order. *)
Definition requests (tr : list Effect) : list string :=
  omap (fun e => match e with Request path => Some path | _ => None end) tr.

(** The [Emit] batches of a trace, in order. *)
Definition emissions (tr : list Effect) : list (list Message) :=
  omap (fun e => match e with Emit items => Some items | _ => None end) tr.

(** Entry number [k] of a batch delete, as the two request parameters that
    carry its id and its receipt handle. *)
Definition batchEntry (k : nat) (m : Message) : list string :=
  let entry := "DeleteMessageBatchRequestEntry." +:+ pretty k in
  [entry +:+ ".Id=msg" +:+ pretty k;
   entry +:+ ".ReceiptHandle=" +:+ encodeURIComponent (ReceiptHandle m)].

(** The text the [catch] block logs for [error]. *)
Definition failed (error : exn) : Effect :=
  LogError ("[SQS] receive/delete failed: " +:+ error_text error).

(** The calls of one cycle in closed form ([executeTrigger_trace] below
    shows that [executeTrigger] makes exactly these). *)
Definition deliver (h : Host) (returnMessages : list Message) : list Effect :=
  Emit returnMessages
    :: match emit h returnMessages with
       | Some e => [failed e]
       | None => []
       end.

Definition cycleTrace (c : Closure) (h : Host) : list Effect :=
  let receive := requestPath (queuePath c) (receiveMessageParams c) in
  Request receive
    :: match awsApiRequestSOAP h receive with
       | Throw e => [failed e]
       | Normal NoMessage => []
       | Normal messages =>
           let messagesArray := messagesArrayOf messages in
           if truthy (get (options c) "deleteMessages") then
             match buildDeleteMessagesParams messagesArray with
             | Throw e => [failed e]
             | Normal deleteMessagesParams =>
                 let delete := requestPath (queuePath c) deleteMessagesParams in
                 Request delete
                   :: match awsApiRequestSOAP h delete with
                      | Throw e => [failed e]
                      | Normal _ => deliver h messagesArray
                      end
             end
           else deliver h messagesArray
       end.

(** The closure with another [options] object. *)
Definition with_options (o : gmap string value) (c : Closure) : Closure :=
  {| queuePath := queuePath c;
     receiveMessageParams := receiveMessageParams c;
     options := o;
     intervalValue := intervalValue c |}.

(** Two outcomes of [trigger] that differ at most in the captured
    [options] object. *)
Definition same_start (r1 r2 : completion (Closure * Sched)) : Prop :=
  match r1, r2 with
  | Normal (c1, s1), Normal (c2, s2) =>
      queuePath c1 = queuePath c2
      /\ receiveMessageParams c1 = receiveMessageParams c2
      /\ intervalValue c1 = intervalValue c2
      /\ s1 = s2
  | Throw e1, Throw e2 => e1 = e2
  | _, _ => False
  end.

(** A node that has been closed: nothing is pending, nothing will be. *)
Definition stopped (s : Sched) : Prop :=
  running s = false /\ timers s = [].

(** What holds of every state the timer machinery can reach. *)
Definition Inv (s : Sched) : Prop :=
  executing s = (if inFlight s then 1 else 0)
  /\ (timers s = []
      \/ exists d, timers s = [(intervalObj s, d)]
                   /\ running s = true /\ inFlight s = false)
  /\ intervalObj s < nextHandle s.

(** ** Further vocabulary *)

(** Whether the character [c] occurs in [s]. *)
Fixpoint has_char (c : ascii) (s : string) : bool :=
  match s with
  | EmptyString => false
  | String c' r => Ascii.eqb c' c || has_char c r
  end.

(** A string of decimal digits. *)
Definition is_digit (c : ascii) : bool :=
  let n := nat_of_ascii c in (48 <=? n) && (n <=? 57).

Fixpoint all_digits (s : string) : bool :=
  match s with
  | EmptyString => true
  | String c r => is_digit c && all_digits r
  end.

(** The [LogError] texts of a trace, in order. *)
Definition errors (tr : list Effect) : list string :=
  omap (fun e => match e with LogError text => Some text | _ => None end) tr.

(** The request parameter a numeric option contributes: none when the
    option is absent or 0. *)
Definition numericParam (key : string) (x : option Z) : list string :=
  match x with
  | Some z => if (z =? 0)%Z then [] else [key +:+ "=" +:+ pretty z]
  | None => []
  end.

(** An optional number in the closed range [lo, hi]. *)
Definition within (lo hi : Z) (x : option Z) : Prop :=
  match x with Some z => (lo <= z <= hi)%Z | None => True end.

(** The [Id] parameter of entry number [k] of a batch delete. *)
Definition entryId (k : nat) : string :=
  ("DeleteMessageBatchRequestEntry." +:+ pretty k) +:+ ".Id=msg" +:+ pretty k.

(** The three ways a cycle can end after its requests. *)
Definition cycleEnd (h : Host) (tail : list Effect) : Prop :=
  tail = [] \/ (exists e, tail = [failed e]) \/ exists l, tail = deliver h l.

(** Cycles that have settled. *)
Definition settledCycles (s : Sched) : nat := cycles s - executing s.

(** What holds, beyond [Inv], of a reachable state and its trace: the
    delays of the pending timers, a running idle node has a timer pending,
    and the trace accounts for the settled cycles. *)
Definition Ledger (c : Closure) (st : Sched * list Effect) : Prop :=
  executing st.1 <= cycles st.1
  /\ (forall h d, (h, d) ∈ timers st.1 ->
        d = if cycles st.1 =? 0 then Fin 0 else intervalValue c)
  /\ (running st.1 = true -> inFlight st.1 = false -> timers st.1 <> [])
  /\ length (emissions st.2) <= settledCycles st.1
  /\ settledCycles st.1 <= length (requests st.2) <= 2 * settledCycles st.1.

(** A closed node with no cycle in flight. *)
Definition quiescent (s : Sched) : Prop :=
  running s = false /\ timers s = [] /\ executing s = 0.

(** ** Sample inputs *)

Definition sampleQueue : string :=
  "https://sqs.eu-west-1.amazonaws.com/123456789012/jobs".

Definition sampleParameters (interval : Z) (unit : string)
    (options : gmap string value) : NodeParameters :=
  {| param_queue := sampleQueue; param_interval := Fin interval;
     param_unit := unit; param_options := options |}.

Definition sampleClosure (options : gmap string value) : Closure :=
  {| queuePath := "/123456789012/jobs";
     receiveMessageParams := receiveMessageParams0;
     options := options;
     intervalValue := Fin 1000 |}.

Definition msgA : Message :=
  {| MessageId := "a1"; ReceiptHandle := "AQEB+x/y=="; Body := "first" |}.
Definition msgB : Message :=
  {| MessageId := "b2"; ReceiptHandle := "tok 2"; Body := "second" |}.
Definition msgC : Message :=
  {| MessageId := "c3"; ReceiptHandle := "plain"; Body := "third" |}.

Definition isReceive (path : string) : bool :=
  String.eqb path
    (requestPath "/123456789012/jobs" receiveMessageParams0).

(** A host whose queue answers a receive with [answer], whose delete
    requests end as [deleted], and whose sink behaves as [sink]. *)
Definition sampleHost (answer : MessageField)
    (deleted : completion MessageField) (sink : option exn) : Host :=
  {| awsApiRequestSOAP := fun path => if isReceive path then Normal answer else deleted;
     emit := fun _ => sink |}.

Definition receivePath : string :=
  "/123456789012/jobs?Version=2012-11-05&Action=ReceiveMessage&MessageAttributeName=All&AttributeName=All".

Definition boom : exn := mkExn "Error" "boom".

Definition deleting : Closure := sampleClosure {[ "deleteMessages" := JBool true ]}.
Definition keeping : Closure := sampleClosure {[ "deleteMessages" := JBool false ]}.

Definition hostDeleteFails : Host :=
  sampleHost (OneMessage msgA) (Throw boom) None.
Definition hostSinkFails : Host :=
  sampleHost (OneMessage msgA) (Normal NoMessage) (Some boom).
Definition hostSingle : Host :=
  sampleHost (MessageArray [msgB]) (Normal NoMessage) None.
Definition hostBatch : Host :=
  sampleHost (MessageArray [msgA; msgB; msgC]) (Normal NoMessage) None.

Definition pOutOfRange : NodeParameters :=
  sampleParameters 1 "seconds" {[ "visibilityTimeout" := JNum (Fin 50000) ]}.
Definition pLongPoll : NodeParameters :=
  sampleParameters 1 "seconds" {[ "waitTimeSeconds" := JNum (Fin 20) ]}.
Definition pZero : NodeParameters := sampleParameters 0 "seconds" ∅.
Definition pHuge : NodeParameters := sampleParameters 600 "hours" ∅.

(** The first cycle is in flight. *)
Definition firstCycle : Sched * list Effect :=
  ({| running := true; inFlight := true; intervalObj := 0; timers := [];
      nextHandle := 1; executing := 1; cycles := 1 |}, []).

(** The node was closed during the first cycle, which then settled. *)
Definition closedAfterFirstCycle : Sched * list Effect :=
  ({| running := false; inFlight := false; intervalObj := 0; timers := [];
      nextHandle := 1; executing := 0; cycles := 1 |},
   cycleTrace deleting hostSingle).

(** A state with a timer pending while [inFlight] is set. *)
Definition guardState : Sched :=
  {| running := true; inFlight := true; intervalObj := 1;
     timers := [(1, Fin 1000)]; nextHandle := 2;
     executing := 1; cycles := 1 |}.

Definition hostReceiveFails : Host :=
  {| awsApiRequestSOAP := fun _ => Throw boom; emit := fun _ => None |}.
Definition hostNoMessage : Host :=
  sampleHost NoMessage (Normal NoMessage) None.
Definition hostEmptyArray : Host :=
  sampleHost (MessageArray []) (Normal NoMessage) None.

Definition sampleQueueUrls : list string :=
  ["https://sqs.eu-west-1.amazonaws.com/123456789012/jobs";
   "https://sqs.eu-west-1.amazonaws.com/123456789012/mail.fifo"].

Definition answerQueues (queues : QueueUrlField)
    : string -> completion ListQueuesData :=
  fun path =>
    if String.eqb path "?Version=2012-11-05&Action=ListQueues"
    then Normal (ListQueuesResult queues)
    else Throw boom.

Definition longPollClosure : Closure :=
  {| queuePath := "/123456789012/jobs";
     receiveMessageParams := receiveMessageParams0 ++ ["WaitTimeSeconds=20"];
     options := {[ "waitTimeSeconds" := JNum (Fin 20) ]};
     intervalValue := Fin 20000 |}.

Definition optionsAtBounds : gmap string value :=
  <["visibilityTimeout" := JNum (Fin 43200)]>
    (<["maxNumberOfMessages" := JNum (Fin 10)]>
       (<["waitTimeSeconds" := JNum (Fin 0)]> ∅)).

(** Every check of [trigger] but the first would fail. *)
Definition pManyFaults : NodeParameters :=
  sampleParameters 0 "seconds"
    (<["visibilityTimeout" := JNum (Fin 50000)]>
       (<["maxNumberOfMessages" := JNum (Fin 11)]>
          (<["waitTimeSeconds" := JNum (Fin 21)]> ∅))).

Definition pTextWait : NodeParameters :=
  sampleParameters 1 "seconds" {[ "waitTimeSeconds" := JStr "30" ]}.

(** The first cycle has settled and the next poll is armed. *)
Definition idleAfterFirstCycle : Sched * list Effect :=
  ({| running := true; inFlight := false; intervalObj := 1;
      timers := [(1, Fin 1000)]; nextHandle := 2;
      executing := 0; cycles := 1 |},
   cycleTrace deleting hostSingle).

(** ** Properties of [trigger] *)

Lemma get_insert (o : gmap string value) (k k' : string) (v : value) :
  get (<[k:=v]> o) k' = if decide (k = k') then v else get o k'.
Proof. unfold get. rewrite lookup_insert. by case_decide. Qed.

Lemma get_delete (o : gmap string value) (k k' : string) :
  get (delete k o) k' = if decide (k = k') then JUndefined else get o k'.
Proof. unfold get. rewrite lookup_delete. by case_decide. Qed.

Lemma get_empty (k : string) : get ∅ k = JUndefined.
Proof. unfold get. by rewrite lookup_empty. Qed.

(** Each block reads one key only. *)
Lemma visibilityTimeoutBlock_get (o o' : gmap string value) ps :
  get o "visibilityTimeout" = get o' "visibilityTimeout" ->
  visibilityTimeoutBlock o ps = visibilityTimeoutBlock o' ps.
Proof. unfold visibilityTimeoutBlock. by intros ->. Qed.

Lemma maxNumberOfMessagesBlock_get (o o' : gmap string value) ps :
  get o "maxNumberOfMessages" = get o' "maxNumberOfMessages" ->
  maxNumberOfMessagesBlock o ps = maxNumberOfMessagesBlock o' ps.
Proof. unfold maxNumberOfMessagesBlock. by intros ->. Qed.

Lemma waitTimeSecondsBlock_get (o o' : gmap string value) ps :
  get o "waitTimeSeconds" = get o' "waitTimeSeconds" ->
  waitTimeSecondsBlock o ps = waitTimeSecondsBlock o' ps.
Proof. unfold waitTimeSecondsBlock. by intros ->. Qed.

(** A falsy value and a truthy non-number leave the first two blocks idle. *)
Lemma visibilityTimeoutBlock_skip (o : gmap string value) ps :
  truthy (get o "visibilityTimeout") = false
  \/ is_number (get o "visibilityTimeout") = false ->
  visibilityTimeoutBlock o ps = Normal ps.
Proof.
  unfold visibilityTimeoutBlock.
  intros [H|H]; [by rewrite H|].
  destruct (get o "visibilityTimeout"); try discriminate; simpl;
    by repeat case_match.
Qed.

Lemma maxNumberOfMessagesBlock_skip (o : gmap string value) ps :
  truthy (get o "maxNumberOfMessages") = false
  \/ is_number (get o "maxNumberOfMessages") = false ->
  maxNumberOfMessagesBlock o ps = Normal ps.
Proof.
  unfold maxNumberOfMessagesBlock.
  intros [H|H]; [by rewrite H|].
  destruct (get o "maxNumberOfMessages"); try discriminate; simpl;
    by repeat case_match.
Qed.

Lemma waitTimeSecondsBlock_falsy (o : gmap string value) ps :
  truthy (get o "waitTimeSeconds") = false ->
  waitTimeSecondsBlock o ps = Normal ps.
Proof. unfold waitTimeSecondsBlock. by intros ->. Qed.

Lemma waitTimeSecondsBlock_raw (o : gmap string value) ps :
  truthy (get o "waitTimeSeconds") = true ->
  is_number (get o "waitTimeSeconds") = false ->
  waitTimeSecondsBlock o ps
  = Normal (ps ++ ["WaitTimeSeconds=" +:+ ToString (get o "waitTimeSeconds")]).
Proof. unfold waitTimeSecondsBlock. by intros -> ->. Qed.

Ltac get_simpl :=
  rewrite ?get_insert, ?get_delete, ?get_empty;
  repeat (case_decide; try discriminate); try done.

Lemma build_skip_key (o : gmap string value) (k : string) (v : value) :
  k ∈ ["visibilityTimeout"; "maxNumberOfMessages"] ->
  truthy v = false \/ is_number v = false ->
  buildReceiveMessageParams (<[k:=v]> o)
  = buildReceiveMessageParams (delete k o).
Proof.
  intros Hk Hv. unfold buildReceiveMessageParams.
  apply elem_of_cons in Hk as [->|Hk]; [|apply list_elem_of_singleton in Hk as ->].
  - rewrite !visibilityTimeoutBlock_skip by (get_simpl; by left).
    simpl.
    rewrite (maxNumberOfMessagesBlock_get _ (delete "visibilityTimeout" o))
      by get_simpl.
    destruct (maxNumberOfMessagesBlock _ _); simpl; [|done].
    apply waitTimeSecondsBlock_get. get_simpl.
  - rewrite (visibilityTimeoutBlock_get _ (delete "maxNumberOfMessages" o))
      by get_simpl.
    destruct (visibilityTimeoutBlock _ _); simpl; [|done].
    rewrite !maxNumberOfMessagesBlock_skip by (get_simpl; by left).
    simpl. apply waitTimeSecondsBlock_get. get_simpl.
Qed.

Lemma build_wait_prefix (o : gmap string value) (v : value) :
  (p1 ← visibilityTimeoutBlock (<["waitTimeSeconds":=v]> o) receiveMessageParams0;
   maxNumberOfMessagesBlock (<["waitTimeSeconds":=v]> o) p1)
  = (p1 ← visibilityTimeoutBlock (delete "waitTimeSeconds" o) receiveMessageParams0;
     maxNumberOfMessagesBlock (delete "waitTimeSeconds" o) p1).
Proof.
  rewrite (visibilityTimeoutBlock_get _ (delete "waitTimeSeconds" o)) by get_simpl.
  destruct (visibilityTimeoutBlock _ _); simpl; [|done].
  apply maxNumberOfMessagesBlock_get. get_simpl.
Qed.

Lemma build_assoc (o : gmap string value) :
  buildReceiveMessageParams o
  = (p2 ← (p1 ← visibilityTimeoutBlock o receiveMessageParams0;
           maxNumberOfMessagesBlock o p1);
     waitTimeSecondsBlock o p2).
Proof.
  unfold buildReceiveMessageParams.
  by destruct (visibilityTimeoutBlock _ _).
Qed.

Lemma build_wait_falsy (o : gmap string value) (v : value) :
  truthy v = false ->
  buildReceiveMessageParams (<["waitTimeSeconds":=v]> o)
  = buildReceiveMessageParams (delete "waitTimeSeconds" o).
Proof.
  intros Hv. rewrite !build_assoc, build_wait_prefix.
  destruct (visibilityTimeoutBlock _ _ ≫= _) as [p2|e]; simpl; [|done].
  rewrite !waitTimeSecondsBlock_falsy; get_simpl.
Qed.

Lemma build_wait_raw (o : gmap string value) (v : value) :
  truthy v = true -> is_number v = false ->
  buildReceiveMessageParams (<["waitTimeSeconds":=v]> o)
  = (ps ← buildReceiveMessageParams (delete "waitTimeSeconds" o);
     Normal (ps ++ ["WaitTimeSeconds=" +:+ ToString v])).
Proof.
  intros Ht Hn. rewrite !build_assoc, build_wait_prefix.
  destruct (visibilityTimeoutBlock _ _ ≫= _) as [p2|e]; simpl; [|done].
  rewrite waitTimeSecondsBlock_raw by get_simpl.
  rewrite waitTimeSecondsBlock_falsy by get_simpl.
  simpl. by get_simpl.
Qed.

Lemma delay_wait_falsy (i : number) (u : string) (o : gmap string value)
    (v : value) :
  truthy v = false ->
  normalizedDelayMs i u (<["waitTimeSeconds":=v]> o)
  = normalizedDelayMs i u (delete "waitTimeSeconds" o).
Proof.
  intros Hv. unfold normalizedDelayMs, js_or. get_simpl. by rewrite Hv.
Qed.

Lemma delay_other_key (i : number) (u : string) (o : gmap string value)
    (k : string) (v : value) :
  k <> "waitTimeSeconds" ->
  normalizedDelayMs i u (<[k:=v]> o) = normalizedDelayMs i u (delete k o).
Proof. intros Hk. unfold normalizedDelayMs. by get_simpl. Qed.

(** A block throws on a value outside its range, and only its own message. *)
Lemma outside_truthy lo hi v : outside lo hi v -> truthy v = true.
Proof.
  intros (z & -> & Hz & _). simpl. by destruct (Z.eqb_spec z 0).
Qed.

Lemma outside_test lo hi z :
  (z < lo \/ hi < z)%Z ->
  num_lt (Fin z) (Fin lo) || num_gt (Fin z) (Fin hi) = true.
Proof.
  unfold num_gt, num_lt. intros H.
  destruct (Z.ltb_spec z lo), (Z.ltb_spec hi z); simpl; auto; lia.
Qed.

Lemma visibilityTimeoutBlock_outside (o : gmap string value) ps :
  outside 0 43200 (get o "visibilityTimeout") ->
  visibilityTimeoutBlock o ps
  = Throw (NodeOperationError
             "Visibility Timeout must be between 0 and 43200 (12 hours).").
Proof.
  intros H. unfold visibilityTimeoutBlock.
  rewrite (outside_truthy _ _ _ H). destruct H as (z & -> & _ & H).
  by rewrite outside_test.
Qed.

Lemma maxNumberOfMessagesBlock_outside (o : gmap string value) ps :
  outside 1 10 (get o "maxNumberOfMessages") ->
  maxNumberOfMessagesBlock o ps
  = Throw (NodeOperationError
             "Max Number Of Messages must be between 1 and 10.").
Proof.
  intros H. unfold maxNumberOfMessagesBlock.
  rewrite (outside_truthy _ _ _ H). destruct H as (z & -> & _ & H).
  by rewrite outside_test.
Qed.

Lemma waitTimeSecondsBlock_outside (o : gmap string value) ps :
  outside 0 20 (get o "waitTimeSeconds") ->
  waitTimeSecondsBlock o ps
  = Throw (NodeOperationError "Wait Time Seconds must be between 0 and 20.").
Proof.
  intros H. unfold waitTimeSecondsBlock.
  rewrite (outside_truthy _ _ _ H). destruct H as (z & -> & _ & H).
  by rewrite outside_test.
Qed.

Lemma visibilityTimeoutBlock_throws (o : gmap string value) ps e :
  visibilityTimeoutBlock o ps = Throw e ->
  exists msg, msg ∈ rangeMessages /\ e = NodeOperationError msg.
Proof.
  unfold visibilityTimeoutBlock. intros H.
  repeat case_match; simplify_eq.
  eexists; split; [|done]. unfold rangeMessages. set_solver.
Qed.

Lemma maxNumberOfMessagesBlock_throws (o : gmap string value) ps e :
  maxNumberOfMessagesBlock o ps = Throw e ->
  exists msg, msg ∈ rangeMessages /\ e = NodeOperationError msg.
Proof.
  unfold maxNumberOfMessagesBlock. intros H.
  repeat case_match; simplify_eq.
  eexists; split; [|done]. unfold rangeMessages. set_solver.
Qed.

Lemma waitTimeSecondsBlock_throws (o : gmap string value) ps e :
  waitTimeSecondsBlock o ps = Throw e ->
  exists msg, msg ∈ rangeMessages /\ e = NodeOperationError msg.
Proof.
  unfold waitTimeSecondsBlock. intros H.
  repeat case_match; simplify_eq;
    (eexists; split; [|done]; unfold rangeMessages; set_solver).
Qed.

Lemma build_out_of_range (o : gmap string value) :
  out_of_range o ->
  exists msg, msg ∈ rangeMessages
    /\ buildReceiveMessageParams o = Throw (NodeOperationError msg).
Proof.
  intros Hout. unfold buildReceiveMessageParams.
  destruct (visibilityTimeoutBlock o receiveMessageParams0) as [p1|e] eqn:E1.
  2:{ apply visibilityTimeoutBlock_throws in E1 as (msg & ? & ->). eauto. }
  simpl.
  destruct (maxNumberOfMessagesBlock o p1) as [p2|e] eqn:E2.
  2:{ apply maxNumberOfMessagesBlock_throws in E2 as (msg & ? & ->). eauto. }
  simpl.
  destruct (waitTimeSecondsBlock o p2) as [p3|e] eqn:E3.
  2:{ apply waitTimeSecondsBlock_throws in E3 as (msg & ? & ->). eauto. }
  destruct Hout as [H|[H|H]].
  - by rewrite visibilityTimeoutBlock_outside in E1.
  - by rewrite maxNumberOfMessagesBlock_outside in E2.
  - by rewrite waitTimeSecondsBlock_outside in E3.
Qed.

Lemma test_outside (lo hi z : Z) :
  num_lt (Fin z) (Fin lo) || num_gt (Fin z) (Fin hi) = true ->
  (z < lo \/ hi < z)%Z.
Proof.
  unfold num_gt, num_lt.
  destruct (Z.ltb_spec z lo), (Z.ltb_spec hi z); simpl; auto; discriminate.
Qed.

Lemma truthy_num (z : Z) : truthy (JNum (Fin z)) = true -> z <> 0%Z.
Proof. simpl. by destruct (Z.eqb_spec z 0). Qed.

Lemma visibilityTimeoutBlock_throw_outside (o : gmap string value) ps e :
  visibilityTimeoutBlock o ps = Throw e ->
  outside 0 43200 (get o "visibilityTimeout").
Proof.
  unfold visibilityTimeoutBlock.
  destruct (truthy (get o "visibilityTimeout")) eqn:Ht; [|done].
  destruct (get o "visibilityTimeout") as [| |b|[z|]|s| |l]; try done.
  destruct (_ || _) eqn:Hz; [|done]. intros _.
  exists z. split; [done|]. split; [by apply truthy_num|by apply test_outside].
Qed.

Lemma maxNumberOfMessagesBlock_throw_outside (o : gmap string value) ps e :
  maxNumberOfMessagesBlock o ps = Throw e ->
  outside 1 10 (get o "maxNumberOfMessages").
Proof.
  unfold maxNumberOfMessagesBlock.
  destruct (truthy (get o "maxNumberOfMessages")) eqn:Ht; [|done].
  destruct (get o "maxNumberOfMessages") as [| |b|[z|]|s| |l]; try done.
  destruct (_ || _) eqn:Hz; [|done]. intros _.
  exists z. split; [done|]. split; [by apply truthy_num|by apply test_outside].
Qed.

Lemma waitTimeSecondsBlock_throw_outside (o : gmap string value) ps e :
  waitTimeSecondsBlock o ps = Throw e ->
  outside 0 20 (get o "waitTimeSeconds").
Proof.
  unfold waitTimeSecondsBlock.
  destruct (truthy (get o "waitTimeSeconds")) eqn:Ht; [|done].
  destruct (get o "waitTimeSeconds") as [| |b|[z|]|s| |l]; try done.
  simpl. destruct (_ || _) eqn:Hz; [|done]. intros _.
  exists z. split; [done|]. split; [by apply truthy_num|by apply test_outside].
Qed.

Lemma block_not_outside_vt (o : gmap string value) ps :
  ~ outside 0 43200 (get o "visibilityTimeout") ->
  exists ps', visibilityTimeoutBlock o ps = Normal ps'.
Proof.
  intros H. destruct (visibilityTimeoutBlock o ps) as [ps'|e] eqn:E; [eauto|].
  destruct H. by eapply visibilityTimeoutBlock_throw_outside.
Qed.

Lemma block_not_outside_max (o : gmap string value) ps :
  ~ outside 1 10 (get o "maxNumberOfMessages") ->
  exists ps', maxNumberOfMessagesBlock o ps = Normal ps'.
Proof.
  intros H. destruct (maxNumberOfMessagesBlock o ps) as [ps'|e] eqn:E; [eauto|].
  destruct H. by eapply maxNumberOfMessagesBlock_throw_outside.
Qed.

(** ** Properties of [executeTrigger] *)

Lemma forLoop_entries (messagesArray : list Message) (n i : nat)
    (params : list string) :
  i + n = length messagesArray ->
  forLoop messagesArray n i params
  = Normal (params
              ++ concat (zip_with batchEntry (seq (S i) n) (drop i messagesArray))).
Proof.
  revert i params. induction n as [|n IH]; intros i params Hlen; simpl.
  - by rewrite app_nil_r.
  - destruct (messagesArray !! i) as [m|] eqn:Hm.
    2:{ apply lookup_ge_None in Hm. lia. }
    rewrite IH by lia.
    rewrite (drop_S _ _ _ Hm). simpl.
    rewrite Nat.add_1_r. unfold batchEntry. by rewrite <- app_assoc.
Qed.

Lemma buildDeleteMessagesParams_single (m : Message) :
  buildDeleteMessagesParams [m]
  = Normal ["Version=2012-11-05"; "Action=DeleteMessage";
            "ReceiptHandle=" +:+ encodeURIComponent (ReceiptHandle m)].
Proof. reflexivity. Qed.

Lemma buildDeleteMessagesParams_batch (messagesArray : list Message) :
  2 <= length messagesArray ->
  buildDeleteMessagesParams messagesArray
  = Normal (["Version=2012-11-05"; "Action=DeleteMessageBatch"]
              ++ concat (zip_with batchEntry
                           (seq 1 (length messagesArray)) messagesArray)).
Proof.
  intros Hlen. unfold buildDeleteMessagesParams.
  destruct (Nat.ltb_spec 1 (length messagesArray)); [|lia].
  by rewrite forLoop_entries.
Qed.

Lemma buildDeleteMessagesParams_nonempty (messagesArray : list Message) :
  messagesArray <> [] ->
  exists ps, buildDeleteMessagesParams messagesArray = Normal ps.
Proof.
  destruct messagesArray as [|m [|m' l]]; intros H; [done| |].
  - eexists. apply buildDeleteMessagesParams_single.
  - eexists. apply buildDeleteMessagesParams_batch. simpl. lia.
Qed.

Ltac run_M :=
  unfold executeTrigger, try_catch, tryBlock, request, this_emit,
    logger_error, throw, failed, deliver, mbind, mret, M_bind, M_ret;
  simpl.

(** [executeTrigger] never throws, and makes exactly the calls of
    [cycleTrace]. *)
Lemma executeTrigger_trace (c : Closure) (h : Host) (tr : list Effect) :
  executeTrigger c h tr = (Normal tt, tr ++ cycleTrace c h).
Proof.
  unfold cycleTrace. run_M.
  destruct (awsApiRequestSOAP h (requestPath (queuePath c) _))
    as [[|m|l]|e]; simpl;
    rewrite <- ?app_assoc; simpl; try done.
  all: destruct (truthy (get (options c) "deleteMessages")); simpl.
  all: repeat match goal with
         | |- context [buildDeleteMessagesParams ?l] =>
             destruct (buildDeleteMessagesParams l) as [ps|e]; simpl
         | |- context [awsApiRequestSOAP ?h' ?p] =>
             destruct (awsApiRequestSOAP h' p) as [r|e]; simpl
         | |- context [emit ?h' ?l] =>
             destruct (emit h' l) as [e'|]; simpl
         end.
  all: unfold failed; by rewrite <- ?app_assoc.
Qed.

Lemma deliver_emit (h : Host) (l items : list Message) :
  Emit items ∈ deliver h l -> items = l.
Proof.
  unfold deliver, failed. intros H.
  apply elem_of_cons in H as [H|H]; [by injection H|].
  destruct (emit h l);
    [apply list_elem_of_singleton in H; discriminate|by apply elem_of_nil in H].
Qed.

Ltac skip_head H := apply elem_of_cons in H as [H|H]; [discriminate H|].
Ltac no_emit H :=
  exfalso; unfold failed in H; repeat skip_head H; by apply elem_of_nil in H.

Lemma cycleTrace_emit (c : Closure) (h : Host) (items : list Message) :
  Emit items ∈ cycleTrace c h ->
  exists before, cycleTrace c h = before ++ deliver h items.
Proof.
  unfold cycleTrace.
  set (receive := requestPath (queuePath c) (receiveMessageParams c)).
  intros H. skip_head H.
  destruct (awsApiRequestSOAP h receive) as [messages|e]; [|no_emit H].
  destruct messages as [|m|l]; [no_emit H| |].
  all: destruct (truthy (get (options c) "deleteMessages")).
  all: try (apply deliver_emit in H as ->; by exists [Request receive]).
  all: destruct (buildDeleteMessagesParams _) as [ps|e]; [|no_emit H].
  all: skip_head H.
  all: destruct (awsApiRequestSOAP h (requestPath (queuePath c) ps)) as [r|e];
    [|no_emit H].
  all: apply deliver_emit in H as ->.
  all: by exists [Request receive; Request (requestPath (queuePath c) ps)].
Qed.

Lemma cycleTrace_no_delete (c : Closure) (h : Host) :
  truthy (get (options c) "deleteMessages") = false ->
  requests (cycleTrace c h)
  = [requestPath (queuePath c) (receiveMessageParams c)].
Proof.
  intros Hd. unfold cycleTrace. rewrite Hd.
  destruct (awsApiRequestSOAP h _) as [[|m|l]|e]; try done.
  all: unfold deliver; by destruct (emit h _).
Qed.

Lemma cycleTrace_delete_requests (c : Closure) (h : Host)
    (messages : MessageField) (ps : list string) :
  truthy (get (options c) "deleteMessages") = true ->
  awsApiRequestSOAP h (requestPath (queuePath c) (receiveMessageParams c))
    = Normal messages ->
  messages <> NoMessage ->
  buildDeleteMessagesParams (messagesArrayOf messages) = Normal ps ->
  requests (cycleTrace c h)
  = [requestPath (queuePath c) (receiveMessageParams c);
     requestPath (queuePath c) ps].
Proof.
  intros Hdel Hrecv Hne Hps. unfold cycleTrace. cbv zeta.
  rewrite Hrecv, Hdel, Hps.
  destruct messages; [done| |];
    (destruct (awsApiRequestSOAP h (requestPath (queuePath c) ps));
     [unfold deliver; by destruct (emit h _)|done]).
Qed.

(** ** The timer machinery *)

Lemma Inv_start : Inv startSched.
Proof. unfold Inv. simpl. split; [done|]. split; [|lia]. right. by exists (Fin 0). Qed.

Lemma pending_inv (s : Sched) (h : nat) :
  Inv s -> pending h s = true ->
  exists d, timers s = [(h, d)] /\ intervalObj s = h
            /\ running s = true /\ inFlight s = false /\ executing s = 0.
Proof.
  intros (Hex & [Ht|(d & Ht & Hr & Hf)] & _) Hp;
    apply bool_decide_eq_true in Hp; rewrite Ht in Hp; [set_solver|].
  apply list_elem_of_singleton in Hp. simpl in Hp. subst h.
  exists d. rewrite Hf in Hex. done.
Qed.

Lemma settle_inv (s : Sched) :
  Inv s -> (0 <? executing s) = true ->
  inFlight s = true /\ timers s = [] /\ executing s = 1.
Proof.
  intros (Hex & Ht & _) Hp. apply Nat.ltb_lt in Hp.
  destruct (inFlight s) eqn:Hf; [|lia].
  split; [done|]. split; [|done].
  destruct Ht as [Ht|(d & _ & _ & ?)]; [done|discriminate].
Qed.

Lemma filter_own_timer (h : nat) (d : number) :
  filter (fun t : nat * number => t.1 ≠ h) [(h, d)] = [].
Proof. rewrite filter_cons, filter_nil. simpl. by case_decide. Qed.

Lemma Inv_step (c : Closure) (st st' : Sched * list Effect) (e : Event) :
  Inv st.1 -> step c st e = Some st' -> Inv st'.1.
Proof.
  destruct st as [s tr]. simpl. intros HI Hstep.
  destruct e as [h|host|]; simpl in Hstep.
  - destruct (pending h s) eqn:Hp; [|done]. simplify_eq.
    destruct (pending_inv _ _ HI Hp) as (d & Ht & Hio & Hr & Hf & Hex).
    destruct HI as (_ & _ & Hlt).
    unfold run, expire. simpl. rewrite Hf. simpl.
    rewrite Ht, filter_own_timer, Hex. unfold Inv. simpl. auto.
  - destruct (0 <? executing s) eqn:Hp; [|done]. simplify_eq.
    destruct (settle_inv _ HI Hp) as (Hf & Ht & Hex).
    destruct HI as (_ & _ & Hlt).
    unfold run_finally, rearm, settled. simpl.
    destruct (running s) eqn:Hr; unfold Inv; simpl; rewrite Ht, Hex; simpl.
    + split; [done|]. split; [|lia]. right. by eexists.
    + auto.
  - simplify_eq. destruct HI as (Hex & Ht & Hlt).
    unfold closeFunction, Inv. simpl. split; [done|]. split; [|done].
    left. destruct Ht as [->|(d & -> & _)]; [done|apply filter_own_timer].
Qed.

Lemma Inv_exec (c : Closure) (es : list Event) (st st' : Sched * list Effect) :
  Inv st.1 -> exec c st es = Some st' -> Inv st'.1.
Proof.
  revert st. induction es as [|e es IH]; intros st HI Hex; simpl in Hex.
  - by simplify_eq.
  - destruct (step c st e) as [st1|] eqn:Hs; [|done]. simpl in Hex.
    eapply IH; [|done]. by eapply Inv_step.
Qed.

Lemma Inv_reachable (c : Closure) (es : list Event) (st : Sched * list Effect) :
  exec c (startSched, []) es = Some st -> Inv st.1.
Proof. apply Inv_exec, Inv_start. Qed.

(** On the traces the node can produce, no timer is pending while a cycle
    is in flight: [run] is only re-entered through [rearm]. *)
Lemma no_timer_while_in_flight (c : Closure) (es : list Event)
    (st : Sched * list Effect) :
  exec c (startSched, []) es = Some st ->
  inFlight st.1 = true -> timers st.1 = [].
Proof.
  intros Hr Hf. apply Inv_reachable in Hr as (_ & [Ht|(d & _ & _ & ?)] & _);
    [done|congruence].
Qed.

Lemma rearm_stopped (c : Closure) (s : Sched) :
  running s = false -> rearm c s = s.
Proof. unfold rearm. by intros ->. Qed.

Lemma closeFunction_stopped (s : Sched) :
  Inv s -> stopped (closeFunction s).
Proof.
  intros (_ & Ht & _). split; [done|]. simpl.
  destruct Ht as [->|(d & -> & _)]; [done|apply filter_own_timer].
Qed.

Lemma stopped_step (c : Closure) (st st' : Sched * list Effect) (e : Event) :
  stopped st.1 -> step c st e = Some st' ->
  stopped st'.1 /\ cycles st'.1 = cycles st.1.
Proof.
  destruct st as [s tr]. simpl. intros [Hr Ht] Hstep.
  destruct e as [h|host|]; simpl in Hstep.
  - unfold pending in Hstep. rewrite Ht in Hstep. done.
  - destruct (0 <? executing s); [|done]. simplify_eq.
    unfold run_finally. rewrite rearm_stopped by done. done.
  - simplify_eq. unfold stopped. simpl. by rewrite Ht.
Qed.

Lemma stopped_exec (c : Closure) (es : list Event) (st st' : Sched * list Effect) :
  stopped st.1 -> exec c st es = Some st' ->
  stopped st'.1 /\ cycles st'.1 = cycles st.1.
Proof.
  revert st. induction es as [|e es IH]; intros st HS Hex; simpl in Hex.
  - by simplify_eq.
  - destruct (step c st e) as [st1|] eqn:Hs; [|done]. simpl in Hex.
    destruct (stopped_step _ _ _ _ HS Hs) as [HS1 Hc1].
    destruct (IH _ HS1 Hex) as [HS' Hc']. split; [done|congruence].
Qed.

Lemma closeFunction_idem (s : Sched) :
  closeFunction (closeFunction s) = closeFunction s.
Proof.
  unfold closeFunction, clearTimeout, set_running. simpl. f_equal.
  rewrite list_filter_filter. apply list_filter_iff. tauto.
Qed.

(** ** The claims *)

(** C1 (amended): in a cycle that received at least one message with
    [deleteMessages] enabled, the delete request is issued right after the
    receive request and before [this.emit]; when the delete request succeeds
    the batch is emitted after it, and when it fails the error is logged and
    nothing is emitted in that cycle. *)
Theorem delete_attempted_before_emit (c : Closure) (h : Host)
    (messages : MessageField) :
  awsApiRequestSOAP h (requestPath (queuePath c) (receiveMessageParams c))
    = Normal messages ->
  messagesArrayOf messages <> [] ->
  truthy (get (options c) "deleteMessages") = true ->
  exists deleteMessagesParams,
    buildDeleteMessagesParams (messagesArrayOf messages)
      = Normal deleteMessagesParams
    /\ let receive := requestPath (queuePath c) (receiveMessageParams c) in
       let delete := requestPath (queuePath c) deleteMessagesParams in
       executeTrigger c h []
         = (Normal tt,
            Request receive :: Request delete
              :: match awsApiRequestSOAP h delete with
                 | Throw e => [failed e]
                 | Normal _ => deliver h (messagesArrayOf messages)
                 end)
       /\ (forall e, awsApiRequestSOAP h delete = Throw e ->
             emissions (snd (executeTrigger c h [])) = [])
       /\ (forall r, awsApiRequestSOAP h delete = Normal r ->
             emissions (snd (executeTrigger c h []))
               = [messagesArrayOf messages]).
Proof.
  intros Hrecv Hne Hdel.
  destruct (buildDeleteMessagesParams_nonempty _ Hne) as [ps Hps].
  exists ps. split; [done|]. simpl.
  rewrite executeTrigger_trace. unfold cycleTrace.
  rewrite Hrecv, Hdel, Hps. simpl.
  assert (messages <> NoMessage) as Hm by (by intros ->).
  destruct messages as [|m|l]; [done| |]; simpl.
  all: split; [done|]; split; [by intros e ->|].
  all: intros r ->; unfold deliver; by destruct (emit h _).
Qed.

(** C2 (amended): an exception raised by [this.emit] is caught by the
    [catch] block of [executeTrigger]: the cycle completes normally, and the
    trace ends with the emit call followed by the logged failure. *)
Theorem sink_failure_caught_and_logged (c : Closure) (h : Host)
    (tr : list Effect) (items : list Message) (e : exn) :
  Emit items ∈ snd (executeTrigger c h []) ->
  emit h items = Some e ->
  fst (executeTrigger c h tr) = Normal tt
  /\ exists before,
       snd (executeTrigger c h tr) = tr ++ before ++ [Emit items; failed e].
Proof.
  rewrite !executeTrigger_trace. simpl. intros Hin He. split; [done|].
  destruct (cycleTrace_emit _ _ _ Hin) as [before ->].
  exists before. unfold deliver. by rewrite He.
Qed.

(** C3 (amended): a non-zero numeric option outside its documented range is
    detected once, when [trigger] starts: [trigger] throws, so no timer is
    armed and no cycle runs; with a well-formed queue URL the error is the
    [NodeOperationError] of the first offending option in the order
    visibilityTimeout, maxNumberOfMessages, waitTimeSeconds, hence of the
    offending option when one option offends. *)
Theorem out_of_range_option_rejected_at_start (p : NodeParameters) :
  out_of_range (param_options p) ->
  (exists e, trigger p = Throw e)
  /\ (forall path, URL_pathname (param_queue p) = Some path ->
        (outside 0 43200 (get (param_options p) "visibilityTimeout") ->
         trigger p
         = Throw (NodeOperationError
                    "Visibility Timeout must be between 0 and 43200 (12 hours)."))
        /\ (~ outside 0 43200 (get (param_options p) "visibilityTimeout") ->
            outside 1 10 (get (param_options p) "maxNumberOfMessages") ->
            trigger p
            = Throw (NodeOperationError
                       "Max Number Of Messages must be between 1 and 10."))
        /\ (~ outside 0 43200 (get (param_options p) "visibilityTimeout") ->
            ~ outside 1 10 (get (param_options p) "maxNumberOfMessages") ->
            outside 0 20 (get (param_options p) "waitTimeSeconds")
            /\ trigger p
               = Throw (NodeOperationError
                          "Wait Time Seconds must be between 0 and 20."))).
Proof.
  intros Hout. split.
  - destruct (build_out_of_range _ Hout) as (msg & Hmsg & Hb).
    unfold trigger. rewrite Hb. destruct (URL_pathname _); simpl; eauto.
  - intros path Hpath. unfold trigger. rewrite Hpath.
    unfold buildReceiveMessageParams. split; [|split].
    + intros Hv. by rewrite visibilityTimeoutBlock_outside.
    + intros Hv Hm.
      destruct (block_not_outside_vt _ receiveMessageParams0 Hv) as [p1 ->].
      simpl. by rewrite maxNumberOfMessagesBlock_outside.
    + intros Hv Hm.
      assert (outside 0 20 (get (param_options p) "waitTimeSeconds")) as Hw.
      { by destruct Hout as [?|[?|?]]. }
      split; [done|].
      destruct (block_not_outside_vt _ receiveMessageParams0 Hv) as [p1 ->].
      simpl.
      destruct (block_not_outside_max _ p1 Hm) as [p2 ->].
      simpl. by rewrite waitTimeSecondsBlock_outside.
Qed.

(** C4: along every trace of the node at most one [executeTrigger]
    invocation is in progress, and an invocation only starts when none is;
    a timer firing while [inFlight] is set starts nothing and only rearms
    the timer with the configured delay. *)
Theorem at_most_one_cycle_in_flight (c : Closure) (es : list Event)
    (st : Sched * list Effect) (s : Sched) (tr : list Effect) (h : nat) :
  exec c (startSched, []) es = Some st ->
  inFlight s = true -> running s = true -> pending h s = true ->
  executing st.1 <= 1
  /\ (forall e st', step c st e = Some st' ->
        cycles st'.1 <> cycles st.1 ->
        executing st.1 = 0 /\ executing st'.1 = 1
        /\ cycles st'.1 = S (cycles st.1))
  /\ step c (s, tr) (Fire h) = Some (rearm c (expire h s), tr)
  /\ cycles (rearm c (expire h s)) = cycles s
  /\ executing (rearm c (expire h s)) = executing s
  /\ inFlight (rearm c (expire h s)) = true
  /\ timers (rearm c (expire h s))
     = timers (expire h s) ++ [(nextHandle s, intervalValue c)].
Proof.
  intros Hreach Hf Hr Hp. pose proof (Inv_reachable _ _ _ Hreach) as HI.
  split; [|split].
  - destruct HI as (-> & _). destruct (inFlight st.1); lia.
  - intros e st' Hstep Hcy. destruct st as [s0 tr0]. simpl in *.
    destruct e as [h0|host|]; simpl in Hstep.
    + destruct (pending h0 s0) eqn:Hp0; [|done]. simplify_eq.
      destruct (pending_inv _ _ HI Hp0) as (d & _ & _ & _ & Hf0 & Hex0).
      unfold run, expire. simpl. rewrite Hf0. simpl. by rewrite Hex0.
    + destruct (0 <? executing s0); [|done]. simplify_eq.
      exfalso. apply Hcy. unfold run_finally, rearm. simpl.
      by destruct (running s0).
    + by simplify_eq.
  - simpl. rewrite Hp. unfold run. simpl. rewrite Hf.
    unfold rearm. simpl. rewrite Hr. done.
Qed.

(** C5: for a valid configuration the delay used to arm the timer is
    [max(interval * unitFactor, waitTimeSeconds * 1000)] milliseconds; with
    [waitTimeSeconds = 20] and an interval of one second it is 20000. *)
Theorem normalized_delay_is_max (p : NodeParameters) (i : Z) (wait : option Z) :
  param_interval p = Fin i -> (0 < i)%Z ->
  param_unit p ∈ ["seconds"; "minutes"; "hours"] ->
  param_options p !! "waitTimeSeconds" = (fun w => JNum (Fin w)) <$> wait ->
  (0 <= default 0%Z wait <= 20)%Z ->
  let delay := Z.max (i * unitFactorMs (param_unit p)) (default 0%Z wait * 1000) in
  normalizedDelayMs (param_interval p) (param_unit p) (param_options p)
    = Fin delay
  /\ (forall path params,
        URL_pathname (param_queue p) = Some path ->
        buildReceiveMessageParams (param_options p) = Normal params ->
        (delay <= 2147483647)%Z ->
        exists c, trigger p = Normal (c, startSched)
                  /\ intervalValue c = Fin delay
                  /\ forall s, running s = true ->
                       timers (rearm c s)
                       = timers s ++ [(nextHandle s, Fin delay)])
  /\ normalizedDelayMs (Fin 1) "seconds" {[ "waitTimeSeconds" := JNum (Fin 20) ]}
     = Fin 20000.
Proof.
  intros Hi Hpos Hu Hw Hrange delay.
  assert (normalizedDelayMs (param_interval p) (param_unit p) (param_options p)
          = Fin delay) as Hdelay.
  { unfold normalizedDelayMs, applyUnit, js_or, get, delay, unitFactorMs.
    rewrite Hi, Hw.
    assert (ToNumber (if truthy (default JUndefined ((fun w => JNum (Fin w)) <$> wait))
                      then default JUndefined ((fun w => JNum (Fin w)) <$> wait)
                      else JNum (Fin 0))
            = Fin (default 0%Z wait)) as ->.
    { destruct wait as [w|]; simpl; [|done].
      destruct (Z.eqb_spec w 0); simpl; congruence. }
    repeat (apply elem_of_cons in Hu as [->|Hu]); [| | |by apply elem_of_nil in Hu];
      simpl; f_equal; lia. }
  split; [done|]. split; [|by vm_compute].
  intros path params Hpath Hparams Hmax. unfold trigger.
  rewrite Hpath, Hparams, Hdelay, Hi. simpl.
  destruct (Z.leb_spec i 0); [lia|].
  unfold num_gt, num_lt. destruct (Z.ltb_spec 2147483647 delay); [lia|].
  eexists. split; [done|]. split; [done|].
  intros s Hs. unfold rearm. by rewrite Hs.
Qed.

(** C6: with [deleteMessages] enabled, a cycle that received exactly one
    message issues one [DeleteMessage] request carrying that message's
    percent-encoded receipt handle; a cycle that received N >= 2 messages
    issues one [DeleteMessageBatch] request whose N entries carry the ids
    msg1..msgN in receipt order, each with its message's percent-encoded
    receipt handle. *)
Theorem delete_request_shape (c : Closure) (h : Host)
    (messages : MessageField) :
  truthy (get (options c) "deleteMessages") = true ->
  awsApiRequestSOAP h (requestPath (queuePath c) (receiveMessageParams c))
    = Normal messages ->
  messages <> NoMessage ->
  let receive := requestPath (queuePath c) (receiveMessageParams c) in
  let messagesArray := messagesArrayOf messages in
  (forall m, messagesArray = [m] ->
     requests (snd (executeTrigger c h []))
     = [receive;
        requestPath (queuePath c)
          ["Version=2012-11-05"; "Action=DeleteMessage";
           "ReceiptHandle=" +:+ encodeURIComponent (ReceiptHandle m)]])
  /\ (2 <= length messagesArray ->
      requests (snd (executeTrigger c h []))
      = [receive;
         requestPath (queuePath c)
           (["Version=2012-11-05"; "Action=DeleteMessageBatch"]
              ++ concat (zip_with batchEntry
                           (seq 1 (length messagesArray)) messagesArray))]).
Proof.
  intros Hdel Hrecv Hne receive messagesArray.
  rewrite executeTrigger_trace. simpl. split.
  - intros m Hm. apply (cycleTrace_delete_requests c h messages); try done.
    fold messagesArray. rewrite Hm. apply buildDeleteMessagesParams_single.
  - intros Hlen. apply (cycleTrace_delete_requests c h messages); try done.
    by apply buildDeleteMessagesParams_batch.
Qed.

(** C7: an interval <= 0, or a normalised delay above 2147483647 ms, makes
    [trigger] throw before the timer state exists: no timer is armed and no
    cycle runs.  With a well-formed queue URL and accepted options the error
    is the interval error, respectively the too-large error. *)
Theorem bad_interval_rejected_at_start (p : NodeParameters) :
  num_le (param_interval p) (Fin 0) = true
  \/ num_gt (normalizedDelayMs (param_interval p) (param_unit p)
               (param_options p)) (Fin 2147483647) = true ->
  (exists e, trigger p = Throw e)
  /\ (forall path params,
        URL_pathname (param_queue p) = Some path ->
        buildReceiveMessageParams (param_options p) = Normal params ->
        trigger p
        = Throw (if num_le (param_interval p) (Fin 0)
                 then NodeOperationError
                        "The interval has to be set to at least 1 or higher!"
                 else NodeApiError "The interval value is too large.")).
Proof.
  intros Hbad.
  assert (forall path params,
            URL_pathname (param_queue p) = Some path ->
            buildReceiveMessageParams (param_options p) = Normal params ->
            trigger p
            = Throw (if num_le (param_interval p) (Fin 0)
                     then NodeOperationError
                            "The interval has to be set to at least 1 or higher!"
                     else NodeApiError "The interval value is too large.")) as H.
  { intros path params Hpath Hparams. unfold trigger.
    rewrite Hpath, Hparams. unfold mbind, completion_bind.
    destruct (num_le (param_interval p) (Fin 0)); [done|].
    destruct Hbad as [Hbad|Hbad]; [done|]. by rewrite Hbad. }
  split; [|done].
  destruct (URL_pathname (param_queue p)) as [path|] eqn:Hpath.
  2:{ unfold trigger. rewrite Hpath. simpl. eauto. }
  destruct (buildReceiveMessageParams (param_options p)) as [params|e] eqn:Hparams.
  2:{ unfold trigger. rewrite Hpath, Hparams. simpl. eauto. }
  rewrite (H path params); eauto.
Qed.

(** C8: [closeFunction] is idempotent and always succeeds; called while a
    cycle is in flight it leaves that cycle to settle, after which nothing
    is in flight, and whatever happens next [running] stays false, no timer
    is pending and no further cycle starts; [rearm] does nothing once
    [running] is false. *)
Theorem stop_is_idempotent_and_final (c : Closure) (es es' : list Event)
    (st st2 : Sched * list Effect) (host : Host) :
  exec c (startSched, []) es = Some st ->
  inFlight st.1 = true ->
  exec c (closeFunction st.1, st.2) es' = Some st2 ->
  (forall s, closeFunction (closeFunction s) = closeFunction s)
  /\ (forall s tr, step c (s, tr) Close = Some (closeFunction s, tr))
  /\ exec c st [Close; Close] = exec c st [Close]
  /\ (exists s1,
        step c (closeFunction st.1, st.2) (Settle host)
          = Some (s1, st.2 ++ cycleTrace c host)
        /\ inFlight s1 = false /\ executing s1 = 0
        /\ running s1 = false /\ timers s1 = []
        /\ cycles s1 = cycles st.1)
  /\ running st2.1 = false /\ timers st2.1 = []
  /\ cycles st2.1 = cycles st.1
  /\ (forall s, running s = false -> rearm c s = s).
Proof.
  intros Hreach Hf Hex. pose proof (Inv_reachable _ _ _ Hreach) as HI.
  pose proof (closeFunction_stopped _ HI) as HS.
  split; [apply closeFunction_idem|]. split; [done|].
  split; [destruct st; simpl; by rewrite closeFunction_idem|].
  split; [|split; [|split; [|split]]].
  - destruct HI as (Hexec & _). rewrite Hf in Hexec.
    eexists. simpl. rewrite Hexec. simpl.
    rewrite executeTrigger_trace. simpl. split; [done|].
    unfold run_finally, rearm. simpl. rewrite Hexec.
    destruct HS as [_ Ht]. simpl in Ht. by rewrite Ht.
  - by destruct (stopped_exec c es' (closeFunction st.1, st.2) st2 HS Hex) as [[? ?] ?].
  - by destruct (stopped_exec c es' (closeFunction st.1, st.2) st2 HS Hex) as [[? ?] ?].
  - by destruct (stopped_exec c es' (closeFunction st.1, st.2) st2 HS Hex) as [[? ?] ?].
  - apply rearm_stopped.
Qed.

(** C9: a falsy [visibilityTimeout], [maxNumberOfMessages] or
    [waitTimeSeconds] (0 in particular) behaves as an absent one: same
    receive parameters or same range error from the other options, same
    delay, same outcome of [trigger]; an empty options object adds no
    parameter; and with a falsy [deleteMessages] a cycle issues the receive
    request only, as it does when [deleteMessages] is absent. *)
Theorem falsy_option_is_unset (o : gmap string value) (k : string) (v : value)
    (p : NodeParameters) (c : Closure) (h : Host) :
  truthy v = false ->
  k ∈ optionKeys ->
  truthy (get (options c) "deleteMessages") = false ->
  buildReceiveMessageParams (<[k:=v]> o)
    = buildReceiveMessageParams (delete k o)
  /\ normalizedDelayMs (param_interval p) (param_unit p) (<[k:=v]> o)
     = normalizedDelayMs (param_interval p) (param_unit p) (delete k o)
  /\ same_start
       (trigger {| param_queue := param_queue p;
                   param_interval := param_interval p;
                   param_unit := param_unit p;
                   param_options := <[k:=v]> o |})
       (trigger {| param_queue := param_queue p;
                   param_interval := param_interval p;
                   param_unit := param_unit p;
                   param_options := delete k o |})
  /\ buildReceiveMessageParams ∅ = Normal receiveMessageParams0
  /\ requests (snd (executeTrigger c h []))
     = [requestPath (queuePath c) (receiveMessageParams c)]
  /\ executeTrigger c h []
     = executeTrigger (with_options (delete "deleteMessages" (options c)) c) h [].
Proof.
  intros Hv Hk Hdel.
  assert (buildReceiveMessageParams (<[k:=v]> o)
          = buildReceiveMessageParams (delete k o)) as Hb.
  { unfold optionKeys in Hk.
    apply elem_of_cons in Hk as [->|Hk]; [apply build_skip_key; [|by left]|].
    { apply elem_of_cons; by left. }
    apply elem_of_cons in Hk as [->|Hk]; [apply build_skip_key; [|by left]|].
    { apply elem_of_cons; right. by apply list_elem_of_singleton. }
    apply list_elem_of_singleton in Hk as ->. by apply build_wait_falsy. }
  assert (forall i u, normalizedDelayMs i u (<[k:=v]> o)
                      = normalizedDelayMs i u (delete k o)) as Hd.
  { intros i u. destruct (decide (k = "waitTimeSeconds")) as [->|Hne].
    - by apply delay_wait_falsy.
    - by apply delay_other_key. }
  split; [done|]. split; [done|]. split.
  { unfold trigger, same_start.
    cbn [param_queue param_interval param_unit param_options].
    rewrite Hb, Hd. unfold mbind, completion_bind.
    clear Hb Hd.
    destruct (URL_pathname _); [|done].
    destruct (buildReceiveMessageParams (delete k o)); [|done].
    destruct (num_le _ _); [done|]. by destruct (num_gt _ _). }
  split; [done|]. split.
  { rewrite executeTrigger_trace. simpl. by apply cycleTrace_no_delete. }
  rewrite !executeTrigger_trace. f_equal. f_equal.
  unfold cycleTrace, with_options. simpl.
  rewrite Hdel, get_delete. simpl. done.
Qed.

(** C10: a truthy value that is not a number passes all three range
    checks; as [visibilityTimeout] or [maxNumberOfMessages] it adds no
    parameter to the receive request, as [waitTimeSeconds] its text is
    appended to the receive request as [WaitTimeSeconds=...], unchecked. *)
Theorem nonnumber_option_asymmetry (o : gmap string value) (k : string)
    (v : value) :
  truthy v = true ->
  is_number v = false ->
  k ∈ ["visibilityTimeout"; "maxNumberOfMessages"] ->
  buildReceiveMessageParams (<[k:=v]> o)
    = buildReceiveMessageParams (delete k o)
  /\ buildReceiveMessageParams (<["waitTimeSeconds":=v]> o)
     = (ps ← buildReceiveMessageParams (delete "waitTimeSeconds" o);
        Normal (ps ++ ["WaitTimeSeconds=" +:+ ToString v]))
  /\ (forall ps,
        visibilityTimeoutBlock (<["visibilityTimeout":=v]> o) ps = Normal ps)
  /\ (forall ps,
        maxNumberOfMessagesBlock (<["maxNumberOfMessages":=v]> o) ps = Normal ps)
  /\ (forall ps,
        waitTimeSecondsBlock (<["waitTimeSeconds":=v]> o) ps
        = Normal (ps ++ ["WaitTimeSeconds=" +:+ ToString v])).
Proof.
  intros Ht Hn Hk.
  split; [apply build_skip_key; [done|by right]|].
  split; [by apply build_wait_raw|].
  split; [intros ps; apply visibilityTimeoutBlock_skip; right; by get_simpl|].
  split; [intros ps; apply maxNumberOfMessagesBlock_skip; right; by get_simpl|].
  intros ps. rewrite waitTimeSecondsBlock_raw by get_simpl. by get_simpl.
Qed.

(** ** Further properties: [getQueues] *)

Lemma split_nonempty (sep : ascii) (s : string) : split sep s <> [].
Proof.
  destruct s as [|c r]; simpl; [done|].
  destruct (Ascii.eqb c sep); [done|]. by destruct (split sep r).
Qed.

Lemma string_app_cons (c : ascii) (a b : string) :
  String c a +:+ b = String c (a +:+ b).
Proof. reflexivity. Qed.

Lemma string_app_assoc (a b c : string) :
  (a +:+ b) +:+ c = a +:+ (b +:+ c).
Proof.
  induction a as [|x a IH]; [done|]. by rewrite !string_app_cons, IH.
Qed.

Lemma join_cons (sep x : string) (l : list string) :
  l <> [] -> join sep (x :: l) = x +:+ sep +:+ join sep l.
Proof. by destruct l. Qed.

Lemma join_snoc (sep x : string) (l : list string) :
  l <> [] -> join sep (l ++ [x]) = join sep l +:+ sep +:+ x.
Proof.
  induction l as [|y l IH]; [done|]. intros _.
  destruct l as [|z l]; [done|].
  change ((y :: z :: l) ++ [x]) with (y :: ((z :: l) ++ [x])).
  rewrite join_cons by done. rewrite IH by done.
  rewrite (join_cons sep y (z :: l)) by done.
  by rewrite !string_app_assoc.
Qed.

(** Joining the pieces with the separator gives the string back. *)
Lemma split_join (sep : ascii) (s : string) :
  join (String sep EmptyString) (split sep s) = s.
Proof.
  induction s as [|c r IH]; [done|]. simpl.
  destruct (Ascii.eqb_spec c sep) as [->|Hne].
  - rewrite join_cons by apply split_nonempty. by rewrite IH.
  - pose proof (split_nonempty sep r) as Hr.
    destruct (split sep r) as [|piece pieces]; [done|].
    destruct pieces as [|p' ps].
    + simpl in *. by rewrite IH.
    + rewrite join_cons by done. rewrite join_cons in IH by done.
      simpl. by rewrite <- IH.
Qed.

Lemma split_no_sep (sep : ascii) (s piece : string) :
  piece ∈ split sep s -> has_char sep piece = false.
Proof.
  revert piece. induction s as [|c r IH]; intros piece; simpl.
  - intros H. by apply list_elem_of_singleton in H as ->.
  - destruct (Ascii.eqb_spec c sep) as [->|Hne].
    + intros H. apply elem_of_cons in H as [->|H]; [done|]. by apply IH.
    + destruct (split sep r) as [|p ps]; simpl.
      * intros H. apply list_elem_of_singleton in H as ->. simpl.
        by destruct (Ascii.eqb_spec c sep).
      * intros H. apply elem_of_cons in H as [->|H].
        -- simpl. destruct (Ascii.eqb_spec c sep); [done|]. simpl.
           apply IH. apply list_elem_of_here.
        -- apply IH. by apply list_elem_of_further.
Qed.

Lemma queueOption_last (queueUrl : string) :
  exists before,
    split "/" queueUrl = before ++ [option_name (queueOption queueUrl)].
Proof.
  unfold queueOption, lastPart. simpl.
  destruct (last (split "/" queueUrl)) as [x|] eqn:Hl.
  - apply last_Some in Hl as [before ->]. by exists before.
  - apply last_None in Hl. by destruct (split_nonempty "/" queueUrl).
Qed.

(** X1: The displayed name of a queue is what follows the last slash of its
    URL (the whole URL when it has none), and holds no slash itself. *)
Theorem queue_name_is_last_segment (queueUrl : string) :
  has_char "/" (option_name (queueOption queueUrl)) = false
  /\ option_value (queueOption queueUrl) = queueUrl
  /\ (queueUrl = option_name (queueOption queueUrl)
      \/ exists prefix,
           queueUrl = prefix +:+ "/" +:+ option_name (queueOption queueUrl)).
Proof.
  destruct (queueOption_last queueUrl) as [before Hs].
  split; [|split; [done|]].
  - apply (split_no_sep "/" queueUrl). rewrite Hs.
    apply elem_of_app. right. apply list_elem_of_here.
  - pose proof (split_join "/" queueUrl) as Hj. rewrite Hs in Hj.
    destruct before as [|b bs].
    + left. symmetry. exact Hj.
    + right. rewrite join_snoc in Hj by done.
      exists (join "/" (b :: bs)). symmetry. exact Hj.
Qed.

(** X2: [getQueues] lists every queue of the answer once, in the order of the
    answer, each with its URL as value. *)
Theorem getQueues_lists_every_queue
    (awsApiRequestSOAP : string -> completion ListQueuesData)
    (queueUrls : list string) :
  awsApiRequestSOAP listQueuesPath
    = Normal (ListQueuesResult (QueueUrlArray queueUrls)) ->
  exists entries,
    getQueues awsApiRequestSOAP = Normal entries
    /\ map option_value entries = queueUrls
    /\ length entries = length queueUrls
    /\ forall i queueUrl, queueUrls !! i = Some queueUrl ->
         entries !! i = Some (queueOption queueUrl).
Proof.
  intros Hanswer. unfold getQueues. rewrite Hanswer. simpl.
  eexists. split; [done|]. split; [|split].
  - clear Hanswer. induction queueUrls as [|u l IH]; [done|].
    simpl in *. by rewrite IH.
  - apply length_map.
  - intros i u Hi. change (map queueOption queueUrls) with (queueOption <$> queueUrls).
    by rewrite list_lookup_fmap, Hi.
Qed.

(** X3: A single queue, answered as a bare URL instead of an array, is listed
    as the array of that one URL is; an empty or missing answer lists
    nothing and is no error. *)
Theorem getQueues_single_queue (queueUrl : string) :
  queueUrl <> EmptyString ->
  getQueues (fun _ => Normal (ListQueuesResult (OneQueueUrl queueUrl)))
  = getQueues (fun _ => Normal (ListQueuesResult (QueueUrlArray [queueUrl])))
  /\ getQueues (fun _ => Normal (ListQueuesResult (OneQueueUrl queueUrl)))
     = Normal [queueOption queueUrl]
  /\ getQueues (fun _ => Normal (ListQueuesResult (OneQueueUrl EmptyString)))
     = Normal []
  /\ getQueues (fun _ => Normal (ListQueuesResult NoQueueUrl)) = Normal [].
Proof. intros Hne. by destruct queueUrl. Qed.

(** ** Further properties: one cycle *)

Lemma cycleTrace_request_failure (c : Closure) (h : Host) (path : string)
    (e : exn) :
  Request path ∈ cycleTrace c h ->
  awsApiRequestSOAP h path = Throw e ->
  last (cycleTrace c h) = Some (failed e).
Proof.
  unfold cycleTrace. cbv zeta.
  set (receive := requestPath (queuePath c) (receiveMessageParams c)).
  intros Hin He.
  destruct (awsApiRequestSOAP h receive) as [messages|e0] eqn:Hr.
  2:{ apply elem_of_cons in Hin as [Hin|Hin].
      - assert (path = receive) as Hp by congruence.
        rewrite Hp, Hr in He. by injection He as ->.
      - apply list_elem_of_singleton in Hin. discriminate. }
  assert (forall l, Request path ∈ deliver h l -> False) as Hd.
  { intros l H. unfold deliver, failed in H.
    apply elem_of_cons in H as [H|H]; [discriminate|].
    destruct (emit h l); [apply list_elem_of_singleton in H; discriminate|].
    by apply elem_of_nil in H. }
  apply elem_of_cons in Hin as [Hin|Hin].
  { assert (path = receive) as Hp by congruence.
    rewrite Hp in He. congruence. }
  destruct messages as [|m|l]; [by apply elem_of_nil in Hin| |].
  all: destruct (truthy (get (options c) "deleteMessages"));
    [|by destruct (Hd _ Hin)].
  all: destruct (buildDeleteMessagesParams _) as [ps|e1];
    [|apply list_elem_of_singleton in Hin; discriminate].
  all: destruct (awsApiRequestSOAP h (requestPath (queuePath c) ps))
    as [r|e2] eqn:Hdel.
  all: apply elem_of_cons in Hin as [Hin|Hin];
    try (assert (path = requestPath (queuePath c) ps) as Hp by congruence;
         rewrite Hp, Hdel in He; by simplify_eq);
    try (by destruct (Hd _ Hin)).
  all: apply list_elem_of_singleton in Hin; discriminate.
Qed.

(** X4: Every failure that the transport or the sink reports as an [Error]
    with a name and a message is caught inside [executeTrigger]: the cycle
    returns normally, keeps the earlier trace, makes the receive request
    first, and a request of the cycle that failed is logged as the last
    thing the cycle does.  Thrown values that have no conversion to text, a
    log call that throws and calls that never settle are not covered. *)
Theorem executeTrigger_never_throws (c : Closure) (h : Host)
    (tr : list Effect) :
  fst (executeTrigger c h tr) = Normal tt
  /\ (exists rest,
        snd (executeTrigger c h tr)
        = tr ++ Request (requestPath (queuePath c) (receiveMessageParams c))
                  :: rest)
  /\ (forall path e,
        Request path ∈ snd (executeTrigger c h []) ->
        awsApiRequestSOAP h path = Throw e ->
        last (snd (executeTrigger c h tr)) = Some (failed e)).
Proof.
  rewrite !executeTrigger_trace. cbn [fst snd app].
  split; [done|]. split; [unfold cycleTrace; eauto|].
  intros path e Hin He.
  by rewrite last_app, (cycleTrace_request_failure c h path e Hin He).
Qed.

(** X5: A failed receive is logged and ends the cycle: no delete request, no
    emission. *)
Theorem receive_failure_only_logged (c : Closure) (h : Host)
    (tr : list Effect) (e : exn) :
  awsApiRequestSOAP h (requestPath (queuePath c) (receiveMessageParams c))
    = Throw e ->
  executeTrigger c h tr
  = (Normal tt,
     tr ++ [Request (requestPath (queuePath c) (receiveMessageParams c));
            LogError ("[SQS] receive/delete failed: " +:+ error_text e)]).
Proof.
  intros He. rewrite executeTrigger_trace. unfold cycleTrace.
  cbv zeta. by rewrite He.
Qed.

(** X6: An answer without messages ends the cycle silently, whether or not
    [deleteMessages] is set. *)
Theorem no_message_no_effect (c : Closure) (h : Host) (tr : list Effect) :
  awsApiRequestSOAP h (requestPath (queuePath c) (receiveMessageParams c))
    = Normal NoMessage ->
  executeTrigger c h tr
  = (Normal tt,
     tr ++ [Request (requestPath (queuePath c) (receiveMessageParams c))]).
Proof.
  intros He. rewrite executeTrigger_trace. unfold cycleTrace.
  cbv zeta. by rewrite He.
Qed.

(** X7: An empty array of messages is truthy and passes the [!messages] test:
    with [deleteMessages] set, reading [messagesArray[0].ReceiptHandle]
    throws, which is logged, and neither a delete request nor an emission
    follows; without it an empty batch is emitted. *)
Theorem empty_array_edge (c : Closure) (h : Host) (tr : list Effect) :
  awsApiRequestSOAP h (requestPath (queuePath c) (receiveMessageParams c))
    = Normal (MessageArray []) ->
  executeTrigger c h tr
  = (Normal tt,
     tr ++ Request (requestPath (queuePath c) (receiveMessageParams c))
             :: (if truthy (get (options c) "deleteMessages")
                 then [failed undefined_ReceiptHandle]
                 else deliver h [])).
Proof.
  intros He. rewrite executeTrigger_trace. unfold cycleTrace.
  cbv zeta. rewrite He. simpl. by destruct (truthy _).
Qed.

Lemma cycleTrace_emissions (c : Closure) (h : Host) :
  emissions (cycleTrace c h) = []
  \/ exists messages,
       awsApiRequestSOAP h (requestPath (queuePath c) (receiveMessageParams c))
         = Normal messages
       /\ messages <> NoMessage
       /\ emissions (cycleTrace c h) = [messagesArrayOf messages].
Proof.
  unfold cycleTrace. cbv zeta.
  destruct (awsApiRequestSOAP h (requestPath (queuePath c) _))
    as [messages|e]; [|by left].
  destruct messages as [|m|l]; [by left| |].
  all: destruct (truthy (get (options c) "deleteMessages")).
  all: try (right; eexists; split; [done|]; split; [done|];
            unfold deliver; by destruct (emit h _)).
  all: destruct (buildDeleteMessagesParams _) as [ps|e]; [|by left].
  all: destruct (awsApiRequestSOAP h (requestPath (queuePath c) ps)) as [r|e];
    [|by left].
  all: right; eexists; split; [done|]; split; [done|];
    unfold deliver; by destruct (emit h _).
Qed.

(** X8: A cycle emits at most once, and what it emits is the whole array of
    received messages, in the order received. *)
Theorem emission_is_whole_batch (c : Closure) (h : Host)
    (items : list Message) :
  items ∈ emissions (snd (executeTrigger c h [])) ->
  length (emissions (snd (executeTrigger c h []))) = 1
  /\ exists messages,
       awsApiRequestSOAP h (requestPath (queuePath c) (receiveMessageParams c))
         = Normal messages
       /\ messages <> NoMessage
       /\ items = messagesArrayOf messages.
Proof.
  rewrite executeTrigger_trace. cbn [snd app].
  destruct (cycleTrace_emissions c h) as [->|(messages & Hm & Hne & ->)].
  - intros H. by apply elem_of_nil in H.
  - intros H. apply list_elem_of_singleton in H as ->. eauto.
Qed.

(** X9: Without [deleteMessages], every non-empty answer is emitted as it was
    received; the only thing that can follow is the logged failure of the
    sink. *)
Theorem delivery_without_delete (c : Closure) (h : Host) (tr : list Effect)
    (messages : MessageField) :
  truthy (get (options c) "deleteMessages") = false ->
  awsApiRequestSOAP h (requestPath (queuePath c) (receiveMessageParams c))
    = Normal messages ->
  messages <> NoMessage ->
  executeTrigger c h tr
  = (Normal tt,
     tr ++ [Request (requestPath (queuePath c) (receiveMessageParams c));
            Emit (messagesArrayOf messages)]
        ++ match emit h (messagesArrayOf messages) with
           | Some e => [LogError ("[SQS] receive/delete failed: "
                                  +:+ error_text e)]
           | None => []
           end).
Proof.
  intros Hd Hm Hne. rewrite executeTrigger_trace. unfold cycleTrace.
  cbv zeta. rewrite Hm, Hd. by destruct messages.
Qed.

Lemma cycleTrace_cases (c : Closure) (h : Host) :
  exists reqs tail,
    cycleTrace c h = map Request reqs ++ tail
    /\ 1 <= length reqs <= 2
    /\ cycleEnd h tail.
Proof.
  unfold cycleTrace, cycleEnd. cbv zeta.
  set (receive := requestPath (queuePath c) (receiveMessageParams c)).
  destruct (awsApiRequestSOAP h receive) as [messages|e].
  2:{ exists [receive], [failed e]. simpl. split; [done|]. split; [lia|eauto]. }
  destruct messages as [|m|l].
  { exists [receive], []. simpl. split; [done|]. split; [lia|eauto]. }
  all: destruct (truthy (get (options c) "deleteMessages")).
  all: try (exists [receive]; eexists; simpl; split; [done|]; split; [lia|];
            right; right; by eexists).
  all: destruct (buildDeleteMessagesParams _) as [ps|e].
  all: try (exists [receive], [failed e]; simpl; split; [done|]; split; [lia|eauto]).
  all: destruct (awsApiRequestSOAP h (requestPath (queuePath c) ps)) as [r|e].
  all: try (exists [receive; requestPath (queuePath c) ps], [failed e]; simpl;
            split; [done|]; split; [lia|eauto]).
  all: exists [receive; requestPath (queuePath c) ps]; eexists; simpl;
    split; [done|]; split; [lia|]; right; right; by eexists.
Qed.

Lemma cycleEnd_facts (h : Host) (tail : list Effect) :
  cycleEnd h tail ->
  requests tail = []
  /\ length (emissions tail) <= 1
  /\ length (errors tail) <= 1
  /\ forall text, LogError text ∈ tail -> last tail = Some (LogError text).
Proof.
  intros [->|[[e ->]|[l ->]]]; unfold deliver, failed.
  - simpl. repeat split; try lia. intros text H. by apply elem_of_nil in H.
  - simpl. repeat split; try lia. intros text H.
    by apply list_elem_of_singleton in H as ->.
  - destruct (emit h l); simpl; repeat split; try lia; intros text H.
    + apply elem_of_cons in H as [H|H]; [discriminate|].
      by apply list_elem_of_singleton in H as ->.
    + apply list_elem_of_singleton in H. discriminate.
Qed.

Lemma requests_map (reqs : list string) (tail : list Effect) :
  requests (map Request reqs ++ tail) = reqs ++ requests tail
  /\ emissions (map Request reqs ++ tail) = emissions tail
  /\ errors (map Request reqs ++ tail) = errors tail.
Proof.
  induction reqs as [|r reqs (IH1 & IH2 & IH3)]; [done|].
  split; [|split; [exact IH2|exact IH3]].
  change (r :: requests (map Request reqs ++ tail)
          = r :: (reqs ++ requests tail)).
  by rewrite IH1.
Qed.

Lemma cycleTrace_shape (c : Closure) (h : Host) :
  1 <= length (requests (cycleTrace c h)) <= 2
  /\ length (emissions (cycleTrace c h)) <= 1
  /\ length (errors (cycleTrace c h)) <= 1
  /\ forall text, LogError text ∈ cycleTrace c h ->
       last (cycleTrace c h) = Some (LogError text).
Proof.
  destruct (cycleTrace_cases c h) as (reqs & tail & -> & Hlen & Hend).
  destruct (cycleEnd_facts h tail Hend) as (H1 & H2 & H3 & H4).
  destruct (requests_map reqs tail) as (-> & -> & ->).
  rewrite H1, app_nil_r. split; [done|]. split; [done|]. split; [done|].
  intros text Hin. apply elem_of_app in Hin as [Hin|Hin].
  - apply list_elem_of_fmap in Hin as (r & Hr & _). discriminate.
  - rewrite last_app, (H4 text Hin). done.
Qed.

(** X10: A cycle makes the receive request and at most one further request,
    emits at most once and logs at most once; a logged failure is the last
    thing the cycle does. *)
Theorem cycle_makes_at_most_two_requests (c : Closure) (h : Host)
    (tr : list Effect) :
  1 <= length (requests (snd (executeTrigger c h []))) <= 2
  /\ length (emissions (snd (executeTrigger c h []))) <= 1
  /\ length (errors (snd (executeTrigger c h []))) <= 1
  /\ forall text,
       LogError text ∈ snd (executeTrigger c h []) ->
       last (snd (executeTrigger c h tr)) = Some (LogError text).
Proof.
  rewrite !executeTrigger_trace. cbn [snd app].
  destruct (cycleTrace_shape c h) as (H1 & H2 & H3 & H4).
  split; [done|]. split; [done|]. split; [done|].
  intros text Hin. rewrite last_app, (H4 text Hin). done.
Qed.

(** ** Further properties: the delete request *)

Lemma has_char_app (c : ascii) (a b : string) :
  has_char c (a +:+ b) = has_char c a || has_char c b.
Proof.
  induction a as [|x a IH]; [done|].
  rewrite string_app_cons. simpl. rewrite IH. by rewrite orb_assoc.
Qed.

Lemma hexDigit_not_amp (n : nat) : Ascii.eqb (hexDigit n) "&" = false.
Proof. do 15 (destruct n as [|n]; [reflexivity|]). reflexivity. Qed.

(** A percent-encoded string holds no ampersand. *)
Lemma encodeURIComponent_no_amp (s : string) :
  has_char "&" (encodeURIComponent s) = false.
Proof.
  induction s as [|x s IH]; [done|]. simpl.
  rewrite has_char_app, IH, orb_false_r.
  destruct (unreserved x) eqn:Hx.
  - simpl. rewrite orb_false_r.
    destruct (Ascii.eqb_spec x "&") as [->|]; [discriminate Hx|done].
  - unfold percentEncode. simpl. by rewrite !hexDigit_not_amp.
Qed.

Lemma all_digits_no_char (c : ascii) (s : string) :
  is_digit c = false -> all_digits s = true -> has_char c s = false.
Proof.
  intros Hc. induction s as [|x s IH]; [done|]. simpl.
  intros [Hx Hs]%andb_true_iff. rewrite IH by done.
  destruct (Ascii.eqb_spec x c) as [->|]; [congruence|done].
Qed.

Lemma pretty_N_char_digit (x : N) : is_digit (pretty_N_char x) = true.
Proof. unfold pretty_N_char. by repeat case_match. Qed.

Lemma pretty_N_go_digits (x : N) (s : string) :
  all_digits s = true -> all_digits (pretty_N_go x s) = true.
Proof.
  revert s. induction (N.lt_wf_0 x) as [x _ IH]; intros s Hs.
  destruct (decide (x = 0)%N) as [->|Hx].
  - by rewrite pretty_N_go_0.
  - rewrite pretty_N_go_step by lia. apply IH.
    + apply N.div_lt; lia.
    + simpl. by rewrite pretty_N_char_digit.
Qed.

Lemma pretty_nat_digits (k : nat) : all_digits (pretty k) = true.
Proof.
  unfold pretty, pretty_nat, pretty, pretty_N.
  case_decide; [done|]. by apply pretty_N_go_digits.
Qed.

Lemma pretty_nat_no_amp (k : nat) : has_char "&" (pretty k) = false.
Proof. apply all_digits_no_char; [done|apply pretty_nat_digits]. Qed.

Lemma batchEntry_no_amp (k : nat) (m : Message) :
  Forall (fun param => has_char "&" param = false) (batchEntry k m).
Proof.
  unfold batchEntry. cbv zeta.
  repeat constructor;
    rewrite !has_char_app, ?pretty_nat_no_amp, ?encodeURIComponent_no_amp;
    done.
Qed.

Lemma entries_no_amp (a n : nat) (l : list Message) :
  Forall (fun param => has_char "&" param = false)
    (concat (zip_with batchEntry (seq a n) l)).
Proof.
  revert a l. induction n as [|n IH]; intros a l; [constructor|].
  destruct l as [|m l]; [constructor|].
  change (Forall (fun param => has_char "&" param = false)
            (batchEntry a m ++ concat (zip_with batchEntry (seq (S a) n) l))).
  apply Forall_app. split; [apply batchEntry_no_amp|apply IH].
Qed.

Lemma split_no_sep_id (sep : ascii) (s : string) :
  has_char sep s = false -> split sep s = [s].
Proof.
  induction s as [|x s IH]; [done|]. simpl.
  intros [Hx Hs]%orb_false_iff. rewrite Hx, IH; done.
Qed.

Lemma split_app_sep (sep : ascii) (a b : string) :
  has_char sep a = false ->
  split sep (a +:+ String sep b) = a :: split sep b.
Proof.
  induction a as [|x a IH]; intros Ha.
  - change (EmptyString +:+ String sep b) with (String sep b).
    simpl. by rewrite Ascii.eqb_refl.
  - simpl in Ha. apply orb_false_iff in Ha as [Hx Ha].
    rewrite string_app_cons. simpl. rewrite Hx, IH; done.
Qed.

(** Splitting a joined list whose elements hold no separator gives the
    list back. *)
Lemma split_join_inv (sep : ascii) (l : list string) :
  l <> [] ->
  Forall (fun x => has_char sep x = false) l ->
  split sep (join (String sep EmptyString) l) = l.
Proof.
  induction l as [|x l IH]; [done|]. intros _ Hall.
  apply Forall_cons in Hall as [Hx Hl].
  destruct l as [|y l].
  - by apply split_no_sep_id.
  - rewrite join_cons by done.
    change (String sep EmptyString +:+ ?r) with (String sep r).
    rewrite split_app_sep by done. by rewrite IH.
Qed.

Lemma buildDeleteMessagesParams_cases (messagesArray : list Message)
    (ps : list string) :
  buildDeleteMessagesParams messagesArray = Normal ps ->
  (exists m,
     messagesArray = [m]
     /\ ps = ["Version=2012-11-05"; "Action=DeleteMessage";
              "ReceiptHandle=" +:+ encodeURIComponent (ReceiptHandle m)])
  \/ (2 <= length messagesArray
      /\ ps = ["Version=2012-11-05"; "Action=DeleteMessageBatch"]
                ++ concat (zip_with batchEntry
                             (seq 1 (length messagesArray)) messagesArray)).
Proof.
  intros H. destruct (decide (2 <= length messagesArray)) as [Hlen|Hlen].
  - right. split; [done|].
    rewrite buildDeleteMessagesParams_batch in H by done. congruence.
  - left. destruct messagesArray as [|m [|m' l]]; [done| |simpl in Hlen; lia].
    exists m. split; [done|].
    rewrite buildDeleteMessagesParams_single in H. congruence.
Qed.

Lemma buildDeleteMessagesParams_no_amp (messagesArray : list Message)
    (ps : list string) :
  buildDeleteMessagesParams messagesArray = Normal ps ->
  Forall (fun param => has_char "&" param = false) ps.
Proof.
  intros [(m & -> & ->)|(Hlen & ->)]%buildDeleteMessagesParams_cases.
  - repeat constructor. by rewrite has_char_app, encodeURIComponent_no_amp.
  - apply Forall_app. split; [by repeat constructor|apply entries_no_amp].
Qed.

Lemma length_entries (a : nat) (l : list Message) :
  length (concat (zip_with batchEntry (seq a (length l)) l)) = 2 * length l.
Proof.
  revert a. induction l as [|m l IH]; intros a; [done|].
  simpl. rewrite IH. lia.
Qed.

(** X11: The parameters of the delete request survive the query string: split
    on the ampersand, the query of the request gives back exactly the
    parameters built, three for a single delete and two more than twice the
    number of messages for a batch, whatever the receipt handles contain. *)
Theorem delete_query_round_trip (messagesArray : list Message)
    (ps : list string) :
  buildDeleteMessagesParams messagesArray = Normal ps ->
  split "&" (join "&" ps) = ps
  /\ length ps = (if length messagesArray =? 1 then 3
                  else 2 + 2 * length messagesArray).
Proof.
  intros Hps. split.
  - apply split_join_inv.
    + by apply buildDeleteMessagesParams_cases in Hps
        as [(m & -> & ->)|(Hlen & ->)].
    + by apply buildDeleteMessagesParams_no_amp with messagesArray.
  - apply buildDeleteMessagesParams_cases in Hps
      as [(m & -> & ->)|(Hlen & ->)]; [done|].
    rewrite length_app, length_entries.
    destruct (Nat.eqb_spec (length messagesArray) 1); [lia|done].
Qed.

Lemma digits_prefix_inj (p1 p2 r1 r2 : string) (c1 c2 : ascii) :
  all_digits p1 = true -> all_digits p2 = true ->
  is_digit c1 = false -> is_digit c2 = false ->
  p1 +:+ String c1 r1 = p2 +:+ String c2 r2 -> p1 = p2.
Proof.
  intros H1 H2 Hc1 Hc2. revert p2 H2.
  induction p1 as [|x p1 IH]; intros [|y p2] H2 Heq; [done| | |].
  - injection Heq as -> _. simpl in H2.
    apply andb_true_iff in H2 as [H2 _]. congruence.
  - injection Heq as -> _. simpl in H1.
    apply andb_true_iff in H1 as [H1 _]. congruence.
  - rewrite !string_app_cons in Heq. injection Heq as -> Heq.
    simpl in H1, H2.
    apply andb_true_iff in H1 as [_ H1]. apply andb_true_iff in H2 as [_ H2].
    f_equal. by apply IH.
Qed.

Lemma entryId_inj (a b : nat) : entryId a = entryId b -> a = b.
Proof.
  unfold entryId. rewrite !string_app_assoc. intros H.
  apply (inj (String.app "DeleteMessageBatchRequestEntry.")) in H.
  apply (inj pretty).
  eapply (digits_prefix_inj _ _ _ _ "." ".");
    [apply pretty_nat_digits|apply pretty_nat_digits|done|done|exact H].
Qed.

Lemma entries_lookup (a : nat) (l : list Message) (i : nat) (m : Message) :
  l !! i = Some m ->
  concat (zip_with batchEntry (seq a (length l)) l) !! (2 * i)
  = Some (entryId (a + i)).
Proof.
  revert a i. induction l as [|m' l IH]; intros a i Hi; [done|].
  destruct i as [|i].
  - rewrite Nat.add_0_r. reflexivity.
  - replace (2 * S i) with (S (S (2 * i))) by lia.
    replace (a + S i) with (S a + i) by lia.
    exact (IH (S a) i Hi).
Qed.

(** X12: In a batch delete, entry number i+1 sits at parameter 2+2i and has the
    id msg(i+1); the ids of different entries differ. *)
Theorem batch_entry_ids_distinct (messagesArray : list Message)
    (ps : list string) (i j : nat) :
  2 <= length messagesArray ->
  buildDeleteMessagesParams messagesArray = Normal ps ->
  i < length messagesArray -> j < length messagesArray -> i <> j ->
  ps !! (2 + 2 * i) = Some (entryId (S i))
  /\ ps !! (2 + 2 * j) = Some (entryId (S j))
  /\ entryId (S i) <> entryId (S j).
Proof.
  intros Hlen Hps Hi Hj Hij.
  rewrite buildDeleteMessagesParams_batch in Hps by done.
  assert (ps = ["Version=2012-11-05"; "Action=DeleteMessageBatch"]
               ++ concat (zip_with batchEntry
                            (seq 1 (length messagesArray)) messagesArray))
    as -> by congruence.
  destruct (lookup_lt_is_Some_2 messagesArray i Hi) as [mi Hmi].
  destruct (lookup_lt_is_Some_2 messagesArray j Hj) as [mj Hmj].
  split; [|split].
  - change (2 + 2 * i) with (S (S (2 * i))). simpl.
    apply (entries_lookup 1 _ _ _ Hmi).
  - change (2 + 2 * j) with (S (S (2 * j))). simpl.
    apply (entries_lookup 1 _ _ _ Hmj).
  - intros H. apply entryId_inj in H. lia.
Qed.

(** ** Further properties: the timer machinery *)

Lemma Ledger_start (c : Closure) : Ledger c (startSched, []).
Proof.
  unfold Ledger, settledCycles. simpl. split; [lia|]. split.
  - intros h d H. apply list_elem_of_singleton in H. congruence.
  - split; [done|]. lia.
Qed.

Lemma trace_app_lengths (tr new : list Effect) :
  length (emissions (tr ++ new))
  = length (emissions tr) + length (emissions new)
  /\ length (requests (tr ++ new))
     = length (requests tr) + length (requests new).
Proof.
  unfold emissions, requests. by rewrite !omap_app, !length_app.
Qed.

Lemma Ledger_step (c : Closure) (st st' : Sched * list Effect) (e : Event) :
  Inv st.1 -> Ledger c st -> step c st e = Some st' -> Ledger c st'.
Proof.
  destruct st as [s tr]. unfold Ledger, settledCycles. simpl.
  intros HI (Hle & Hd & Hlive & Hem & Hrq) Hstep.
  destruct e as [h|host|]; simpl in Hstep.
  - destruct (pending h s) eqn:Hp; [|done]. simplify_eq.
    destruct (pending_inv _ _ HI Hp) as (d & Ht & Hio & Hr & Hf & Hex).
    unfold run, expire. simpl. rewrite Hf. simpl.
    rewrite Ht, filter_own_timer, Hex in *.
    split; [lia|]. split; [intros h' d' H'; by apply elem_of_nil in H'|].
    split; [done|]. split; lia.
  - destruct (0 <? executing s) eqn:Hp; [|done]. simplify_eq.
    destruct (settle_inv _ HI Hp) as (Hf & Ht & Hex).
    rewrite executeTrigger_trace. simpl.
    destruct (trace_app_lengths tr (cycleTrace c host)) as [-> ->].
    destruct (cycleTrace_shape c host) as (Hq & He & _ & _).
    assert (cycles (run_finally c (settled s)) = cycles s
            /\ executing (run_finally c (settled s)) = 0) as [-> ->].
    { unfold run_finally, rearm. simpl.
      destruct (running s); simpl; by rewrite ?Hex. }
    rewrite Hex in *. split; [lia|]. split; [|split; [|lia]].
    + unfold run_finally, rearm. simpl. destruct (running s); simpl.
      * rewrite Ht. intros h d H. apply list_elem_of_singleton in H.
        destruct (Nat.eqb_spec (cycles s) 0); [lia|congruence].
      * rewrite Ht. intros h d H. by apply elem_of_nil in H.
    + unfold run_finally, rearm. simpl.
      destruct (running s) eqn:Hr; simpl; rewrite ?Hr; [|done].
      intros _ _. by destruct (timers s).
  - simplify_eq. simpl. split; [done|]. split; [|split; [done|lia]].
    intros h d H. apply list_elem_of_filter in H as [_ H]. by apply (Hd h).
Qed.

Lemma Ledger_exec (c : Closure) (es : list Event)
    (st st' : Sched * list Effect) :
  Inv st.1 -> Ledger c st -> exec c st es = Some st' -> Ledger c st'.
Proof.
  revert st. induction es as [|e es IH]; intros st HI HL Hex; simpl in Hex.
  - by simplify_eq.
  - destruct (step c st e) as [st1|] eqn:Hs; [|done]. simpl in Hex.
    eapply IH; [| |done]; [by eapply Inv_step|by eapply Ledger_step].
Qed.

Lemma Ledger_reachable (c : Closure) (es : list Event)
    (st : Sched * list Effect) :
  exec c (startSched, []) es = Some st -> Ledger c st.
Proof. apply Ledger_exec; [apply Inv_start|apply Ledger_start]. Qed.

(** X13: The first poll is armed with delay 0; every later timer is armed with
    the normalised delay, and at most one timer is pending at any time. *)
Theorem poll_delays (c : Closure) (es : list Event)
    (st : Sched * list Effect) (h : nat) (d : number) :
  exec c (startSched, []) es = Some st ->
  (h, d) ∈ timers st.1 ->
  d = (if cycles st.1 =? 0 then Fin 0 else intervalValue c)
  /\ timers st.1 = [(h, d)]
  /\ h = intervalObj st.1.
Proof.
  intros Hreach Hin.
  destruct (Ledger_reachable _ _ _ Hreach) as (_ & Hd & _).
  split; [by apply (Hd h)|].
  destruct (Inv_reachable _ _ _ Hreach) as (_ & [Ht|(d' & Ht & _)] & _);
    rewrite Ht in Hin.
  - by apply elem_of_nil in Hin.
  - apply list_elem_of_singleton in Hin. injection Hin as -> ->.
    by rewrite Ht.
Qed.

(** X14: While a started node has not been closed, exactly one thing is
    outstanding: either a cycle is in flight and no timer is pending, or no
    cycle is in flight and exactly one timer, the one held in [intervalObj],
    is pending.  When the cycle in flight settles, [inFlight] is cleared and
    the next timer is armed with the normalised delay; the awaited request
    has no timeout, so until it settles the node stays as it is. *)
Theorem one_thing_outstanding_while_running (c : Closure) (es : list Event)
    (st : Sched * list Effect) :
  exec c (startSched, []) es = Some st ->
  running st.1 = true ->
  (inFlight st.1 = true /\ executing st.1 = 1 /\ timers st.1 = []
   /\ forall host st',
        step c st (Settle host) = Some st' ->
        inFlight st'.1 = false /\ executing st'.1 = 0
        /\ timers st'.1 = [(intervalObj st'.1, intervalValue c)])
  \/ (inFlight st.1 = false /\ executing st.1 = 0
      /\ exists d, timers st.1 = [(intervalObj st.1, d)]).
Proof.
  intros Hreach Hrun.
  destruct (Ledger_reachable _ _ _ Hreach) as (_ & _ & Hlive & _).
  destruct (Inv_reachable _ _ _ Hreach) as (Hex & Ht & _).
  destruct st as [s tr]. simpl in *.
  destruct (inFlight s) eqn:Hf.
  - left. split; [done|]. split; [done|].
    destruct Ht as [Ht|(d & _ & _ & ?)]; [|done].
    split; [done|]. intros host st' Hstep. rewrite Hex in Hstep.
    simpl in Hstep. simplify_eq. simpl.
    unfold run_finally, rearm. simpl. rewrite Hrun. simpl.
    by rewrite Ht, Hex.
  - right. split; [done|]. split; [done|].
    destruct Ht as [Ht|(d & Ht & _)]; [|eauto].
    by destruct (Hlive Hrun eq_refl).
Qed.

Lemma quiescent_step (c : Closure) (s : Sched) (tr : list Effect)
    (e : Event) (st' : Sched * list Effect) :
  quiescent s -> step c (s, tr) e = Some st' -> e = Close /\ st' = (s, tr).
Proof.
  intros (Hr & Ht & Hex) Hstep. destruct e as [h|host|]; simpl in Hstep.
  - unfold pending in Hstep. by rewrite Ht in Hstep.
  - by rewrite Hex in Hstep.
  - simplify_eq. split; [done|]. f_equal.
    destruct s. simpl in *. unfold closeFunction, clearTimeout. simpl.
    by rewrite Hr, Ht.
Qed.

Lemma quiescent_exec (c : Closure) (s : Sched) (tr : list Effect)
    (es : list Event) (st' : Sched * list Effect) :
  quiescent s -> exec c (s, tr) es = Some st' ->
  Forall (fun e => e = Close) es /\ st' = (s, tr).
Proof.
  intros Hq. induction es as [|e es IH]; intros Hex.
  - simpl in Hex. by simplify_eq.
  - change (step c (s, tr) e ≫= (fun st1 => exec c st1 es) = Some st') in Hex.
    destruct (step c (s, tr) e) as [st1|] eqn:Hs; [|done].
    change (exec c st1 es = Some st') in Hex.
    destruct (quiescent_step _ _ _ _ _ Hq Hs) as [-> ->].
    destruct (IH Hex) as [? ?]. split; [by constructor|done].
Qed.

(** X16: Closing a node between two cycles cancels the pending poll for good:
    from then on no event but a further close is possible, and neither the
    state nor the trace changes again. *)
Theorem close_between_cycles_is_final (c : Closure) (es es' : list Event)
    (st st2 : Sched * list Effect) :
  exec c (startSched, []) es = Some st ->
  inFlight st.1 = false ->
  exec c (closeFunction st.1, st.2) es' = Some st2 ->
  st2 = (closeFunction st.1, st.2)
  /\ Forall (fun e => e = Close) es'
  /\ timers (closeFunction st.1) = []
  /\ forall h, step c (closeFunction st.1, st.2) (Fire h) = None.
Proof.
  intros Hreach Hf Hex.
  pose proof (Inv_reachable _ _ _ Hreach) as HI.
  destruct (closeFunction_stopped _ HI) as [Hr Ht].
  assert (quiescent (closeFunction st.1)) as Hq.
  { split; [done|]. split; [done|]. simpl.
    destruct HI as (-> & _). by rewrite Hf. }
  destruct (quiescent_exec _ _ _ _ _ Hq Hex) as [Hall ->].
  split; [done|]. split; [done|]. split; [done|].
  intros h. simpl. unfold pending. by rewrite Ht.
Qed.

(** ** Further properties: [trigger] *)

Lemma build_throw_out_of_range (o : gmap string value) :
  (exists e, buildReceiveMessageParams o = Throw e) -> out_of_range o.
Proof.
  intros [e He]. unfold buildReceiveMessageParams in He.
  destruct (visibilityTimeoutBlock o receiveMessageParams0) as [p1|e1] eqn:E1.
  2:{ left. by eapply visibilityTimeoutBlock_throw_outside. }
  simpl in He.
  destruct (maxNumberOfMessagesBlock o p1) as [p2|e2] eqn:E2.
  2:{ right; left. by eapply maxNumberOfMessagesBlock_throw_outside. }
  simpl in He. right; right. by eapply waitTimeSecondsBlock_throw_outside.
Qed.

(** X17: The options are rejected exactly when one of them is a non-zero number
    outside its range, bounds included in the range: text, booleans, 0 and
    absent options never raise. *)
Theorem options_rejected_iff_out_of_range (o : gmap string value) :
  (exists e, buildReceiveMessageParams o = Throw e) <-> out_of_range o.
Proof.
  split.
  - apply build_throw_out_of_range.
  - intros Hout. destruct (build_out_of_range o Hout) as (msg & _ & ->). eauto.
Qed.

Lemma get_lookup_num (o : gmap string value) (k : string) (x : option Z) :
  o !! k = (fun z => JNum (Fin z)) <$> x ->
  get o k = match x with Some z => JNum (Fin z) | None => JUndefined end.
Proof. unfold get. intros ->. by destruct x. Qed.

Lemma in_range_test (lo hi z : Z) :
  (lo <= z <= hi)%Z ->
  num_lt (Fin z) (Fin lo) || num_gt (Fin z) (Fin hi) = false.
Proof.
  unfold num_gt, num_lt. intros H.
  destruct (Z.ltb_spec z lo), (Z.ltb_spec hi z); simpl; auto; lia.
Qed.

(** X18: Accepted numeric options are sent in a fixed order after the four fixed
    parameters, each as its decimal value; an option that is absent or 0
    contributes nothing.  0 is accepted for [maxNumberOfMessages] too, whose
    documented range starts at 1. *)
Theorem accepted_options_in_order (o : gmap string value)
    (visibilityTimeout maxNumberOfMessages waitTimeSeconds : option Z) :
  o !! "visibilityTimeout" = (fun z => JNum (Fin z)) <$> visibilityTimeout ->
  o !! "maxNumberOfMessages" = (fun z => JNum (Fin z)) <$> maxNumberOfMessages ->
  o !! "waitTimeSeconds" = (fun z => JNum (Fin z)) <$> waitTimeSeconds ->
  within 0 43200 visibilityTimeout ->
  within 0 10 maxNumberOfMessages ->
  within 0 20 waitTimeSeconds ->
  buildReceiveMessageParams o
  = Normal (receiveMessageParams0
              ++ numericParam "VisibilityTimeout" visibilityTimeout
              ++ numericParam "MaxNumberOfMessages" maxNumberOfMessages
              ++ numericParam "WaitTimeSeconds" waitTimeSeconds).
Proof.
  intros Hv Hm Hw Rv Rm Rw.
  apply get_lookup_num in Hv, Hm, Hw.
  unfold buildReceiveMessageParams, visibilityTimeoutBlock,
    maxNumberOfMessagesBlock, waitTimeSecondsBlock, numericParam.
  rewrite Hv, Hm, Hw.
  destruct visibilityTimeout as [v|], maxNumberOfMessages as [m|],
    waitTimeSeconds as [w|]; simpl in Rv, Rm, Rw.
  all: repeat match goal with
         | |- context [truthy (JNum (Fin ?z))] =>
             change (truthy (JNum (Fin z))) with (negb (z =? 0)%Z);
             destruct (Z.eqb_spec z 0)
         end.
  all: cbn [negb truthy is_number andb mbind completion_bind].
  all: rewrite ?(in_range_test 0 43200 v), ?(in_range_test 1 10 m),
         ?(in_range_test 0 20 w) by lia.
  all: cbn [negb truthy is_number andb mbind completion_bind ToString
            number_to_string].
  all: by rewrite <- ?app_assoc, ?app_nil_r.
Qed.

(** X19: The checks of [trigger] run in a fixed order and the first one that
    fails decides the error: the queue URL, then the visibility timeout,
    the maximum number of messages, the wait time, and only then the
    interval. *)
Theorem first_failing_check_decides (p : NodeParameters) (path : string) :
  URL_pathname (param_queue p) = Some path ->
  (outside 0 43200 (get (param_options p) "visibilityTimeout") ->
   trigger p
   = Throw (NodeOperationError
              "Visibility Timeout must be between 0 and 43200 (12 hours)."))
  /\ (~ outside 0 43200 (get (param_options p) "visibilityTimeout") ->
      outside 1 10 (get (param_options p) "maxNumberOfMessages") ->
      trigger p
      = Throw (NodeOperationError
                 "Max Number Of Messages must be between 1 and 10."))
  /\ (~ outside 0 43200 (get (param_options p) "visibilityTimeout") ->
      ~ outside 1 10 (get (param_options p) "maxNumberOfMessages") ->
      outside 0 20 (get (param_options p) "waitTimeSeconds") ->
      trigger p
      = Throw (NodeOperationError "Wait Time Seconds must be between 0 and 20."))
  /\ (~ out_of_range (param_options p) ->
      num_le (param_interval p) (Fin 0) = true ->
      trigger p
      = Throw (NodeOperationError
                 "The interval has to be set to at least 1 or higher!")).
Proof.
  intros Hpath. unfold trigger. rewrite Hpath.
  unfold buildReceiveMessageParams.
  split; [|split; [|split]].
  - intros Hv. by rewrite visibilityTimeoutBlock_outside.
  - intros Hv Hm.
    destruct (block_not_outside_vt _ receiveMessageParams0 Hv) as [p1 ->].
    simpl. by rewrite maxNumberOfMessagesBlock_outside.
  - intros Hv Hm Hw.
    destruct (block_not_outside_vt _ receiveMessageParams0 Hv) as [p1 ->].
    simpl.
    destruct (block_not_outside_max _ p1 Hm) as [p2 ->].
    simpl. by rewrite waitTimeSecondsBlock_outside.
  - intros Hin Hle.
    fold (buildReceiveMessageParams (param_options p)).
    destruct (buildReceiveMessageParams (param_options p)) as [ps|e] eqn:E.
    + unfold mbind, completion_bind. by rewrite Hle.
    + destruct Hin. apply build_throw_out_of_range. eauto.
Qed.

Lemma block_appends_vt (o : gmap string value) ps ps' :
  visibilityTimeoutBlock o ps = Normal ps' ->
  exists rest, ps' = ps ++ rest /\ length rest <= 1.
Proof.
  unfold visibilityTimeoutBlock. intros H.
  repeat case_match; simplify_eq;
    ((exists []; split; [by rewrite app_nil_r|simpl; lia])
     || (eexists [_]; split; [done|simpl; lia])).
Qed.

Lemma block_appends_max (o : gmap string value) ps ps' :
  maxNumberOfMessagesBlock o ps = Normal ps' ->
  exists rest, ps' = ps ++ rest /\ length rest <= 1.
Proof.
  unfold maxNumberOfMessagesBlock. intros H.
  repeat case_match; simplify_eq;
    ((exists []; split; [by rewrite app_nil_r|simpl; lia])
     || (eexists [_]; split; [done|simpl; lia])).
Qed.

Lemma block_appends_wait (o : gmap string value) ps ps' :
  waitTimeSecondsBlock o ps = Normal ps' ->
  exists rest, ps' = ps ++ rest /\ length rest <= 1.
Proof.
  unfold waitTimeSecondsBlock. intros H.
  repeat case_match; simplify_eq;
    ((exists []; split; [by rewrite app_nil_r|simpl; lia])
     || (eexists [_]; split; [done|simpl; lia])).
Qed.

Lemma build_appends (o : gmap string value) (ps : list string) :
  buildReceiveMessageParams o = Normal ps ->
  exists rest, ps = receiveMessageParams0 ++ rest /\ length rest <= 3.
Proof.
  unfold buildReceiveMessageParams. intros H.
  destruct (visibilityTimeoutBlock o receiveMessageParams0) as [p1|] eqn:E1;
    [|done].
  simpl in H.
  destruct (maxNumberOfMessagesBlock o p1) as [p2|] eqn:E2; [|done].
  simpl in H.
  apply block_appends_vt in E1 as (r1 & -> & ?).
  apply block_appends_max in E2 as (r2 & -> & ?).
  apply block_appends_wait in H as (r3 & -> & ?).
  exists (r1 ++ r2 ++ r3). rewrite !length_app, <- !app_assoc.
  split; [done|lia].
Qed.

(** X20: A node that starts has parsed its queue URL, keeps its options, sends
    the four fixed receive parameters first and at most three more, and is
    running with nothing in flight and one timer of delay 0 pending, so that
    its first event is that timer firing into the first cycle. *)
Theorem started_node_state (p : NodeParameters) (c : Closure) (s : Sched) :
  trigger p = Normal (c, s) ->
  URL_pathname (param_queue p) = Some (queuePath c)
  /\ options c = param_options p
  /\ (exists rest,
        receiveMessageParams c = receiveMessageParams0 ++ rest
        /\ length rest <= 3)
  /\ running s = true /\ inFlight s = false
  /\ timers s = [(intervalObj s, Fin 0)]
  /\ (forall host, step c (s, []) (Settle host) = None)
  /\ exists s1,
       step c (s, []) (Fire (intervalObj s)) = Some (s1, [])
       /\ inFlight s1 = true /\ cycles s1 = 1 /\ timers s1 = [].
Proof.
  unfold trigger. intros H.
  destruct (URL_pathname (param_queue p)) as [path|]; [|done].
  unfold mbind, completion_bind in H.
  destruct (buildReceiveMessageParams (param_options p)) as [ps|] eqn:E;
    [|done].
  destruct (num_le _ _); [done|]. destruct (num_gt _ _); [done|].
  injection H as <- <-. simpl.
  split; [done|]. split; [done|].
  split; [by apply (build_appends (param_options p))|].
  split; [done|]. split; [done|]. split; [done|]. split; [done|].
  by eexists.
Qed.

Lemma applyUnit_factor (i : Z) (unit : string) :
  exists f, applyUnit (Fin i) unit = Fin (i * f) /\ (1 <= f)%Z.
Proof.
  unfold applyUnit.
  destruct (String.eqb unit "minutes") eqn:Em;
    destruct (String.eqb unit "hours") eqn:Eh; simpl.
  - apply String.eqb_eq in Em, Eh. congruence.
  - exists 60%Z. split; [done|lia].
  - exists 3600%Z. split; [done|lia].
  - exists 1%Z. split; [by rewrite Z.mul_1_r|lia].
Qed.

(** X21: The delay of a started node, for an integer interval and an
    integer or absent wait time and whatever the unit text is: a whole
    number of seconds, at least one second, at least the interval in seconds
    and at least the wait time, and within the range of the timer.
    Fractional intervals and wait times are not covered. *)
Theorem delay_bounds (p : NodeParameters) (c : Closure) (s : Sched)
    (i : Z) (wait : option Z) :
  trigger p = Normal (c, s) ->
  param_interval p = Fin i ->
  param_options p !! "waitTimeSeconds" = (fun w => JNum (Fin w)) <$> wait ->
  exists d,
    intervalValue c = Fin d
    /\ (1000 <= d <= 2147483647)%Z
    /\ (d mod 1000 = 0)%Z
    /\ (i * 1000 <= d)%Z
    /\ (default 0%Z wait * 1000 <= d)%Z.
Proof.
  unfold trigger. intros H Hi Hw.
  destruct (URL_pathname (param_queue p)) as [path|]; [|done].
  unfold mbind, completion_bind in H.
  destruct (buildReceiveMessageParams (param_options p)) as [ps|]; [|done].
  rewrite Hi in H.
  destruct (num_le (Fin i) (Fin 0)) eqn:Hle; [done|].
  destruct (num_gt _ _) eqn:Hgt; [done|].
  injection H as <- <-. simpl.
  simpl in Hle. apply Z.leb_gt in Hle.
  unfold normalizedDelayMs, js_or in *.
  rewrite (get_lookup_num _ _ _ Hw) in *.
  destruct (applyUnit_factor i (param_unit p)) as (f & Hf & Hf1).
  rewrite Hf in *.
  assert (ToNumber (if truthy match wait with
                              | Some z => JNum (Fin z)
                              | None => JUndefined
                              end
                    then match wait with
                         | Some z => JNum (Fin z)
                         | None => JUndefined
                         end
                    else JNum (Fin 0))
          = Fin (default 0%Z wait)) as Hn.
  { destruct wait as [w|]; simpl; [|done].
    destruct (Z.eqb_spec w 0); simpl; congruence. }
  rewrite Hn in *. simpl in *.
  apply Z.ltb_ge in Hgt.
  eexists. split; [done|].
  split; [nia|]. split; [by rewrite Z.mod_mul|]. split; nia.
Qed.

(** X22: A wait time given as text is never range-checked: it is sent as it is,
    and its numeric reading counts in the delay, above 20 seconds too; a
    text that does not read as a number starts the node with a [NaN]
    delay. *)
Theorem text_wait_time_is_unchecked (p : NodeParameters) (path text : string)
    (i : Z) :
  URL_pathname (param_queue p) = Some path ->
  param_interval p = Fin i -> (0 < i)%Z ->
  param_unit p = "seconds" ->
  param_options p = {[ "waitTimeSeconds" := JStr text ]} ->
  text <> EmptyString ->
  (forall w, StringToNumber text = Fin w ->
     (Z.max i w * 1000 <= 2147483647)%Z ->
     trigger p
     = Normal ({| queuePath := path;
                  receiveMessageParams :=
                    receiveMessageParams0 ++ ["WaitTimeSeconds=" +:+ text];
                  options := param_options p;
                  intervalValue := Fin (Z.max i w * 1000) |}, startSched))
  /\ (StringToNumber text = NaN ->
      trigger p
      = Normal ({| queuePath := path;
                   receiveMessageParams :=
                     receiveMessageParams0 ++ ["WaitTimeSeconds=" +:+ text];
                   options := param_options p;
                   intervalValue := NaN |}, startSched)).
Proof.
  intros Hpath Hi Hpos Hu Ho Hne.
  assert (truthy (JStr text) = true) as Ht by (by destruct text).
  assert (buildReceiveMessageParams (param_options p)
          = Normal (receiveMessageParams0 ++ ["WaitTimeSeconds=" +:+ text]))
    as Hb.
  { rewrite Ho.
    change ({[ "waitTimeSeconds" := JStr text ]} : gmap string value)
      with (<["waitTimeSeconds" := JStr text]> (∅ : gmap string value)).
    by rewrite build_wait_raw. }
  assert (normalizedDelayMs (param_interval p) (param_unit p) (param_options p)
          = num_mul (Math_max (Fin i) (StringToNumber text)) (Fin 1000)) as Hd.
  { unfold normalizedDelayMs, js_or, applyUnit. rewrite Ho, Hi, Hu.
    change (get {[ "waitTimeSeconds" := JStr text ]} "waitTimeSeconds")
      with (JStr text).
    by rewrite Ht. }
  unfold trigger. rewrite Hpath, Hb, Hd, Hi.
  unfold mbind, completion_bind.
  destruct (Z.leb_spec i 0) as [|_]; [lia|]. simpl num_le.
  destruct (Z.leb_spec i 0) as [|_]; [lia|].
  split.
  - intros w -> Hmax. simpl.
    destruct (Z.ltb_spec 2147483647 (Z.max i w * 1000)); [lia|done].
  - intros ->. done.
Qed.

End Node.

(** ** The claims on the sample inputs *)

(** One message received, the delete request fails: both requests are made,
    the failure is logged, nothing is emitted. *)
Lemma delete_attempted_before_emit_witness :
  executeTrigger deleting hostDeleteFails []
  = (Normal tt,
     [Request receivePath;
      Request "/123456789012/jobs?Version=2012-11-05&Action=DeleteMessage&ReceiptHandle=AQEB%2Bx%2Fy%3D%3D";
      LogError "[SQS] receive/delete failed: boom"])
  /\ emissions (snd (executeTrigger deleting hostDeleteFails [])) = [].
Proof.
  destruct (delete_attempted_before_emit deleting hostDeleteFails
              (OneMessage msgA)) as (ps & Hps & Hrun & Hfail & _).
  - reflexivity.
  - discriminate.
  - reflexivity.
  - injection Hps as <-. split; [exact Hrun|].
    apply (Hfail boom). reflexivity.
Defined.

(** C1, as stated, fails: the delete request of this cycle fails and the
    cycle emits nothing. *)
Lemma delete_failure_prevents_emit :
  awsApiRequestSOAP hostDeleteFails receivePath = Normal (OneMessage msgA)
  /\ truthy (get (options deleting) "deleteMessages") = true
  /\ snd (executeTrigger deleting hostDeleteFails [])
     = [Request receivePath;
        Request "/123456789012/jobs?Version=2012-11-05&Action=DeleteMessage&ReceiptHandle=AQEB%2Bx%2Fy%3D%3D";
        LogError "[SQS] receive/delete failed: boom"]
  /\ ~ (exists items,
          Emit items ∈ snd (executeTrigger deleting hostDeleteFails [])).
Proof.
  split; [reflexivity|]. split; [reflexivity|]. split; [reflexivity|].
  intros [items H].
  change (Emit items
          ∈ [Request receivePath;
             Request "/123456789012/jobs?Version=2012-11-05&Action=DeleteMessage&ReceiptHandle=AQEB%2Bx%2Fy%3D%3D";
             LogError "[SQS] receive/delete failed: boom"]) in H.
  repeat (apply elem_of_cons in H as [H|H]; [discriminate H|]).
  by apply elem_of_nil in H.
Qed.

(** The sink throws: the cycle still completes normally and logs. *)
Lemma sink_failure_caught_and_logged_witness :
  fst (executeTrigger deleting hostSinkFails []) = Normal tt
  /\ exists before,
       snd (executeTrigger deleting hostSinkFails [])
       = [] ++ before ++ [Emit [msgA]; failed boom].
Proof.
  apply (sink_failure_caught_and_logged deleting hostSinkFails [] [msgA] boom).
  - change (Emit [msgA]
            ∈ [Request receivePath;
               Request "/123456789012/jobs?Version=2012-11-05&Action=DeleteMessage&ReceiptHandle=AQEB%2Bx%2Fy%3D%3D";
               Emit [msgA];
               LogError "[SQS] receive/delete failed: boom"]).
    do 2 apply list_elem_of_further. apply list_elem_of_here.
  - reflexivity.
Defined.

(** C2, as stated, fails: the sink throws [boom], and [executeTrigger]
    returns normally with the failure logged instead of throwing. *)
Lemma sink_failure_does_not_propagate :
  emit hostSinkFails [msgA] = Some boom
  /\ executeTrigger deleting hostSinkFails []
     = (Normal tt,
        [Request receivePath;
         Request "/123456789012/jobs?Version=2012-11-05&Action=DeleteMessage&ReceiptHandle=AQEB%2Bx%2Fy%3D%3D";
         Emit [msgA];
         LogError "[SQS] receive/delete failed: boom"])
  /\ fst (executeTrigger deleting hostSinkFails []) <> Throw boom.
Proof. split; [reflexivity|]. split; [reflexivity|]. discriminate. Qed.

Lemma out_of_range_option_rejected_at_start_witness :
  trigger Sample.pathname Sample.string_to_number pOutOfRange
  = Throw (NodeOperationError
             "Visibility Timeout must be between 0 and 43200 (12 hours).").
Proof.
  assert (outside 0 43200 (get (param_options pOutOfRange) "visibilityTimeout"))
    as Hv.
  { exists 50000%Z. split; [reflexivity|]. split; [discriminate|].
    right. reflexivity. }
  destruct (out_of_range_option_rejected_at_start
              Sample.pathname Sample.string_to_number pOutOfRange) as [_ H].
  - left. exact Hv.
  - destruct (H "/123456789012/jobs" eq_refl) as [H1 _]. exact (H1 Hv).
Defined.

(** C3, as stated, fails: with [visibilityTimeout = 50000] the node does not
    start at all, so there is no cycle to skip and no later tick. *)
Lemma out_of_range_fails_at_startup :
  trigger Sample.pathname Sample.string_to_number pOutOfRange
  = Throw (NodeOperationError
             "Visibility Timeout must be between 0 and 43200 (12 hours).")
  /\ ~ (exists started,
          trigger Sample.pathname Sample.string_to_number pOutOfRange
          = Normal started).
Proof. split; [reflexivity|]. intros [started H]. discriminate H. Qed.

Lemma at_most_one_cycle_in_flight_witness :
  executing firstCycle.1 <= 1
  /\ step deleting (guardState, []) (Fire 1)
     = Some (rearm deleting (expire 1 guardState), [])
  /\ timers (rearm deleting (expire 1 guardState)) = [(2, Fin 1000)]
  /\ cycles (rearm deleting (expire 1 guardState)) = cycles guardState.
Proof.
  destruct (at_most_one_cycle_in_flight deleting [Fire 0] firstCycle
              guardState [] 1) as (H1 & _ & H3 & H4 & _ & _ & H7).
  - reflexivity.
  - reflexivity.
  - reflexivity.
  - reflexivity.
  - split; [exact H1|]. split; [exact H3|]. split; [exact H7|exact H4].
Defined.

Lemma normalized_delay_is_max_witness :
  normalizedDelayMs Sample.string_to_number (param_interval pLongPoll)
    (param_unit pLongPoll) (param_options pLongPoll) = Fin 20000
  /\ exists c,
       trigger Sample.pathname Sample.string_to_number pLongPoll
       = Normal (c, startSched)
       /\ intervalValue c = Fin 20000.
Proof.
  destruct (normalized_delay_is_max Sample.pathname Sample.string_to_number
              pLongPoll 1 (Some 20%Z)) as (H1 & H2 & _).
  - reflexivity.
  - lia.
  - apply list_elem_of_here.
  - reflexivity.
  - simpl. lia.
  - split; [exact H1|].
    destruct (H2 "/123456789012/jobs"
                (receiveMessageParams0 ++ ["WaitTimeSeconds=20"]))
      as (c & Hc & Hi & _).
    + reflexivity.
    + reflexivity.
    + vm_compute. discriminate.
    + exists c. split; [exact Hc|exact Hi].
Defined.

Lemma delete_request_shape_witness :
  requests (snd (executeTrigger deleting hostSingle []))
  = [receivePath;
     "/123456789012/jobs?Version=2012-11-05&Action=DeleteMessage&ReceiptHandle=tok%202"]
  /\ requests (snd (executeTrigger deleting hostBatch []))
     = [receivePath;
        "/123456789012/jobs?Version=2012-11-05&Action=DeleteMessageBatch&DeleteMessageBatchRequestEntry.1.Id=msg1&DeleteMessageBatchRequestEntry.1.ReceiptHandle=AQEB%2Bx%2Fy%3D%3D&DeleteMessageBatchRequestEntry.2.Id=msg2&DeleteMessageBatchRequestEntry.2.ReceiptHandle=tok%202&DeleteMessageBatchRequestEntry.3.Id=msg3&DeleteMessageBatchRequestEntry.3.ReceiptHandle=plain"].
Proof.
  split.
  - destruct (delete_request_shape deleting hostSingle (MessageArray [msgB]))
      as [H _]; [reflexivity|reflexivity|discriminate|].
    exact (H msgB eq_refl).
  - destruct (delete_request_shape deleting hostBatch
                (MessageArray [msgA; msgB; msgC]))
      as [_ H]; [reflexivity|reflexivity|discriminate|].
    apply H. simpl. lia.
Defined.

Lemma bad_interval_rejected_at_start_witness :
  trigger Sample.pathname Sample.string_to_number pZero
  = Throw (NodeOperationError
             "The interval has to be set to at least 1 or higher!")
  /\ trigger Sample.pathname Sample.string_to_number pHuge
     = Throw (NodeApiError "The interval value is too large.").
Proof.
  split.
  - destruct (bad_interval_rejected_at_start
                Sample.pathname Sample.string_to_number pZero) as [_ H].
    + left. reflexivity.
    + exact (H "/123456789012/jobs" receiveMessageParams0 eq_refl eq_refl).
  - destruct (bad_interval_rejected_at_start
                Sample.pathname Sample.string_to_number pHuge) as [_ H].
    + right. reflexivity.
    + exact (H "/123456789012/jobs" receiveMessageParams0 eq_refl eq_refl).
Defined.

Lemma stop_is_idempotent_and_final_witness :
  exec deleting firstCycle [Close; Close] = exec deleting firstCycle [Close]
  /\ running closedAfterFirstCycle.1 = false
  /\ timers closedAfterFirstCycle.1 = []
  /\ cycles closedAfterFirstCycle.1 = cycles firstCycle.1.
Proof.
  destruct (stop_is_idempotent_and_final deleting [Fire 0]
              [Settle hostSingle; Close] firstCycle closedAfterFirstCycle
              hostSingle) as (_ & _ & H3 & _ & H5 & H6 & H7 & _).
  - reflexivity.
  - reflexivity.
  - reflexivity.
  - split; [exact H3|]. split; [exact H5|]. split; [exact H6|exact H7].
Defined.

Lemma falsy_option_is_unset_witness :
  buildReceiveMessageParams (<["maxNumberOfMessages" := JNum (Fin 0)]> ∅)
  = buildReceiveMessageParams (delete "maxNumberOfMessages" ∅)
  /\ requests (snd (executeTrigger keeping hostBatch [])) = [receivePath].
Proof.
  destruct (falsy_option_is_unset Sample.pathname Sample.string_to_number
              ∅ "maxNumberOfMessages" (JNum (Fin 0)) pLongPoll keeping
              hostBatch) as (H1 & _ & _ & _ & H5 & _).
  - reflexivity.
  - apply list_elem_of_further, list_elem_of_here.
  - reflexivity.
  - split; [exact H1|exact H5].
Defined.

Lemma nonnumber_option_asymmetry_witness :
  buildReceiveMessageParams (<["visibilityTimeout" := JStr "soon"]> ∅)
  = buildReceiveMessageParams (delete "visibilityTimeout" ∅)
  /\ waitTimeSecondsBlock (<["waitTimeSeconds" := JStr "soon"]> ∅)
       receiveMessageParams0
     = Normal (receiveMessageParams0 ++ ["WaitTimeSeconds=soon"]).
Proof.
  destruct (nonnumber_option_asymmetry ∅ "visibilityTimeout" (JStr "soon"))
    as (H1 & _ & _ & _ & H5).
  - reflexivity.
  - reflexivity.
  - apply list_elem_of_here.
  - split; [exact H1|exact (H5 receiveMessageParams0)].
Defined.

(** ** The further properties on the sample inputs *)

Lemma getQueues_lists_every_queue_witness :
  exists entries,
    getQueues (answerQueues (QueueUrlArray sampleQueueUrls)) = Normal entries
    /\ map option_value entries = sampleQueueUrls
    /\ map option_name entries = ["jobs"; "mail.fifo"].
Proof.
  destruct (getQueues_lists_every_queue
              (answerQueues (QueueUrlArray sampleQueueUrls)) sampleQueueUrls)
    as (entries & He & Hv & _ & _).
  - reflexivity.
  - exists entries. split; [exact He|]. split; [exact Hv|].
    injection He as <-. reflexivity.
Defined.

Lemma getQueues_single_queue_witness :
  getQueues (fun _ => Normal (ListQueuesResult (OneQueueUrl sampleQueue)))
  = Normal [queueOption sampleQueue].
Proof.
  destruct (getQueues_single_queue sampleQueue) as (_ & H & _).
  - discriminate.
  - exact H.
Defined.

Lemma executeTrigger_never_throws_witness :
  fst (executeTrigger deleting hostDeleteFails []) = Normal tt
  /\ last (snd (executeTrigger deleting hostDeleteFails []))
     = Some (LogError "[SQS] receive/delete failed: boom").
Proof.
  destruct (executeTrigger_never_throws deleting hostDeleteFails [])
    as (H1 & _ & H3).
  split; [exact H1|].
  apply (H3 "/123456789012/jobs?Version=2012-11-05&Action=DeleteMessage&ReceiptHandle=AQEB%2Bx%2Fy%3D%3D" boom).
  - apply list_elem_of_further, list_elem_of_here.
  - reflexivity.
Defined.

Lemma receive_failure_only_logged_witness :
  executeTrigger deleting hostReceiveFails []
  = (Normal tt,
     [Request receivePath; LogError "[SQS] receive/delete failed: boom"]).
Proof.
  apply (receive_failure_only_logged deleting hostReceiveFails [] boom).
  reflexivity.
Defined.

Lemma no_message_no_effect_witness :
  executeTrigger deleting hostNoMessage [] = (Normal tt, [Request receivePath]).
Proof.
  apply (no_message_no_effect deleting hostNoMessage []). reflexivity.
Defined.

Lemma empty_array_edge_witness :
  executeTrigger deleting hostEmptyArray []
  = (Normal tt, [Request receivePath; failed undefined_ReceiptHandle])
  /\ executeTrigger keeping hostEmptyArray []
     = (Normal tt, [Request receivePath; Emit []]).
Proof.
  split.
  - apply (empty_array_edge deleting hostEmptyArray []). reflexivity.
  - apply (empty_array_edge keeping hostEmptyArray []). reflexivity.
Defined.

Lemma emission_is_whole_batch_witness :
  length (emissions (snd (executeTrigger deleting hostBatch []))) = 1
  /\ exists messages,
       awsApiRequestSOAP hostBatch
         (requestPath (queuePath deleting) (receiveMessageParams deleting))
       = Normal messages
       /\ messages <> NoMessage
       /\ [msgA; msgB; msgC] = messagesArrayOf messages.
Proof.
  apply (emission_is_whole_batch deleting hostBatch [msgA; msgB; msgC]).
  apply list_elem_of_here.
Defined.

Lemma delivery_without_delete_witness :
  executeTrigger keeping hostBatch []
  = (Normal tt, [Request receivePath; Emit [msgA; msgB; msgC]]).
Proof.
  apply (delivery_without_delete keeping hostBatch []
           (MessageArray [msgA; msgB; msgC])).
  - reflexivity.
  - reflexivity.
  - discriminate.
Defined.

Lemma cycle_makes_at_most_two_requests_witness :
  last (snd (executeTrigger deleting hostDeleteFails []))
  = Some (LogError "[SQS] receive/delete failed: boom").
Proof.
  destruct (cycle_makes_at_most_two_requests deleting hostDeleteFails [])
    as (_ & _ & _ & H).
  apply H. do 2 apply list_elem_of_further. apply list_elem_of_here.
Defined.

Lemma delete_query_round_trip_witness :
  exists ps,
    buildDeleteMessagesParams [msgA; msgB; msgC] = Normal ps
    /\ split "&" (join "&" ps) = ps
    /\ length ps = 8.
Proof.
  eexists. split; [reflexivity|].
  apply (delete_query_round_trip [msgA; msgB; msgC]). reflexivity.
Defined.

Lemma batch_entry_ids_distinct_witness :
  exists ps,
    buildDeleteMessagesParams [msgA; msgB; msgC] = Normal ps
    /\ ps !! 2 = Some (entryId 1)
    /\ ps !! 6 = Some (entryId 3)
    /\ entryId 1 <> entryId 3.
Proof.
  eexists. split; [reflexivity|].
  apply (batch_entry_ids_distinct [msgA; msgB; msgC] _ 0 2).
  - simpl. lia.
  - reflexivity.
  - simpl. lia.
  - simpl. lia.
  - lia.
Defined.

Lemma poll_delays_witness :
  Fin 1000 = (if cycles idleAfterFirstCycle.1 =? 0 then Fin 0
              else intervalValue deleting)
  /\ timers idleAfterFirstCycle.1 = [(1, Fin 1000)]
  /\ 1 = intervalObj idleAfterFirstCycle.1.
Proof.
  apply (poll_delays deleting [Fire 0; Settle hostSingle]
           idleAfterFirstCycle 1 (Fin 1000)).
  - reflexivity.
  - apply list_elem_of_here.
Defined.

Lemma one_thing_outstanding_while_running_witness :
  (inFlight firstCycle.1 = true /\ executing firstCycle.1 = 1
   /\ timers firstCycle.1 = []
   /\ forall host st',
        step deleting firstCycle (Settle host) = Some st' ->
        inFlight st'.1 = false /\ executing st'.1 = 0
        /\ timers st'.1 = [(intervalObj st'.1, intervalValue deleting)])
  \/ (inFlight firstCycle.1 = false /\ executing firstCycle.1 = 0
      /\ exists d, timers firstCycle.1 = [(intervalObj firstCycle.1, d)]).
Proof.
  apply (one_thing_outstanding_while_running deleting [Fire 0] firstCycle).
  - reflexivity.
  - reflexivity.
Defined.

Lemma close_between_cycles_is_final_witness :
  timers (closeFunction idleAfterFirstCycle.1) = []
  /\ step deleting (closeFunction idleAfterFirstCycle.1, idleAfterFirstCycle.2)
       (Fire 1) = None.
Proof.
  destruct (close_between_cycles_is_final deleting [Fire 0; Settle hostSingle]
              [Close; Close] idleAfterFirstCycle
              (closeFunction idleAfterFirstCycle.1, idleAfterFirstCycle.2))
    as (_ & _ & H3 & H4).
  - reflexivity.
  - reflexivity.
  - reflexivity.
  - split; [exact H3|exact (H4 1)].
Defined.

Lemma options_rejected_iff_out_of_range_witness :
  out_of_range (param_options pOutOfRange).
Proof.
  apply (options_rejected_iff_out_of_range (param_options pOutOfRange)).
  eexists. reflexivity.
Defined.

Lemma accepted_options_in_order_witness :
  buildReceiveMessageParams optionsAtBounds
  = Normal (receiveMessageParams0
              ++ ["VisibilityTimeout=43200"; "MaxNumberOfMessages=10"]).
Proof.
  apply (accepted_options_in_order optionsAtBounds
           (Some 43200%Z) (Some 10%Z) (Some 0%Z)).
  - reflexivity.
  - reflexivity.
  - reflexivity.
  - simpl. lia.
  - simpl. lia.
  - simpl. lia.
Defined.

Lemma first_failing_check_decides_witness :
  trigger Sample.pathname Sample.string_to_number pManyFaults
  = Throw (NodeOperationError
             "Visibility Timeout must be between 0 and 43200 (12 hours).").
Proof.
  destruct (first_failing_check_decides Sample.pathname Sample.string_to_number
              pManyFaults "/123456789012/jobs") as (H & _).
  - reflexivity.
  - apply H. exists 50000%Z. split; [reflexivity|]. split; [discriminate|].
    right. reflexivity.
Defined.

Lemma started_node_state_witness :
  running startSched = true /\ inFlight startSched = false
  /\ timers startSched = [(intervalObj startSched, Fin 0)]
  /\ exists rest,
       receiveMessageParams longPollClosure = receiveMessageParams0 ++ rest
       /\ length rest <= 3.
Proof.
  destruct (started_node_state Sample.pathname Sample.string_to_number
              pLongPoll longPollClosure startSched)
    as (_ & _ & H3 & H4 & H5 & H6 & _).
  - reflexivity.
  - split; [exact H4|]. split; [exact H5|]. split; [exact H6|exact H3].
Defined.

Lemma delay_bounds_witness :
  exists d,
    intervalValue longPollClosure = Fin d
    /\ (1000 <= d <= 2147483647)%Z
    /\ (d mod 1000 = 0)%Z
    /\ (1 * 1000 <= d)%Z
    /\ (default 0%Z (Some 20%Z) * 1000 <= d)%Z.
Proof.
  apply (delay_bounds Sample.pathname Sample.string_to_number
           pLongPoll longPollClosure startSched 1 (Some 20%Z)).
  - reflexivity.
  - reflexivity.
  - reflexivity.
Defined.

Lemma text_wait_time_is_unchecked_witness :
  trigger Sample.pathname Sample.string_to_number pTextWait
  = Normal ({| queuePath := "/123456789012/jobs";
               receiveMessageParams :=
                 receiveMessageParams0 ++ ["WaitTimeSeconds=30"];
               options := param_options pTextWait;
               intervalValue := Fin 30000 |}, startSched).
Proof.
  destruct (text_wait_time_is_unchecked Sample.pathname
              Sample.string_to_number pTextWait "/123456789012/jobs" "30" 1)
    as (H & _).
  - reflexivity.
  - reflexivity.
  - lia.
  - reflexivity.
  - reflexivity.
  - discriminate.
  - apply (H 30%Z).
    + reflexivity.
    + vm_compute. discriminate.
Defined.
